(** * Gravity Runner: a shallow embedding of [game.js]

    The game is one script: a configuration object, a handful of global
    variables, three classes ([Player], [Obstacle], [Particle]) and the
    functions of the per-frame tick.  The embedding keeps that shape: one
    module per class, one record [World] for the globals, and one function
    per function of the script, threading the world explicitly.

    Numbers.  A JavaScript number is modelled by an exact rational [Q].
    Every quantity of the player (gravity, velocity, position) is a small
    multiple of 1/2, so the arithmetic of the script on them is exact and
    the model computes the very values the script computes.  The rounding
    of binary64 on the other quantities (obstacle speed, particle
    velocities) is not modelled.  The two counters that only ever hold
    integers ([frame], [lastObstacleFrame]) and the best score, which is
    the result of [parseInt] or of [Math.floor], are integers [Z].

    The canvas.  [resizeCanvas] always assigns [CONFIG.canvas.width] and
    [CONFIG.canvas.height] to [canvas.width] and [canvas.height]; the model
    uses these two constants for the canvas.  Drawing writes pixels that
    nothing reads back, so the [draw] methods are left out. *)

From Stdlib Require Import ZArith QArith Qabs Qround Lqa Lia List Bool.
From Stdlib Require Import String DecimalString.
From stdpp Require Import base gmap strings list.

Open Scope Q_scope.

(** ** Comparisons of numbers as booleans *)

Definition Qlt_bool (a b : Q) : bool :=
  (Qnum a * QDen b <? Qnum b * QDen a)%Z.

(** ** The configuration object *)

Module CONFIG.

Module canvas.
Definition width : Q := 800.
Definition height : Q := 400.
End canvas.

Module player.
Definition size : Q := 30.
Definition x : Q := 150.
Definition speed : Q := 0.
Definition maxSpeed : Q := 8.
Definition gravity : Q := 1 # 2.
End player.

Module obstacle.
Definition width : Q := 40.
Definition minGap : Q := 200.
Definition maxGap : Q := 350.
Definition speed : Q := 5.
Definition speedIncrease : Q := 1 # 2000.
End obstacle.

Module game.
Definition groundHeight : Q := 50.
Definition scoreMultiplier : Q := 1.
End game.

End CONFIG.

(** The canvas has the logical resolution of the configuration. *)
Module canvas.
Definition width : Q := CONFIG.canvas.width.
Definition height : Q := CONFIG.canvas.height.
End canvas.

(** ** The [Math] object

    [Math.random] is a source of numbers in [[0, 1)] that the script cannot
    predict: the model reads them off a stream that is part of the state,
    and advances a cursor at each draw. *)

Record Rng := mkRng { stream : nat -> Q; cursor : nat }.

Definition Rng_in_range (g : Rng) : Prop :=
  forall n : nat, 0 <= stream g n /\ stream g n < 1.

Module Math.
Definition random (g : Rng) : Q * Rng :=
  (stream g (cursor g), mkRng (stream g) (S (cursor g))).

Definition abs (a : Q) : Q := Qabs a.

Definition sign (a : Q) : Q :=
  if Qlt_bool 0 a then 1 else if Qlt_bool a 0 then -1 else 0.

Definition floor (a : Q) : Z := Qfloor a.

(** The binary64 number that [Math.PI] denotes. *)
Definition PI : Q := 884279719003555 # 281474976710656.
End Math.

(** A number that holds an integer, as [textContent] and [setItem] print it. *)
Definition Number_toString (n : Z) : string :=
  NilZero.string_of_int (Z.to_int n).

(** ** class Player *)

Module Player.
Record t := mk {
  width : Q;
  height : Q;
  x : Q;
  y : Q;
  velocityY : Q;
  gravity : Q;
  isOnGround : bool;
  rotation : Q
}.

Definition new : t :=
  {| width := CONFIG.player.size;
     height := CONFIG.player.size;
     x := CONFIG.player.x;
     y := CONFIG.game.groundHeight;
     velocityY := 0;
     gravity := CONFIG.player.gravity;
     isOnGround := true;
     rotation := 0 |}.

(** The part of [flipGravity] that writes to [this]; the particle burst
    and the hint, which are globals, are added by [Player_flipGravity]
    below. *)
Definition flipGravity_this (p : t) : t :=
  {| width := width p; height := height p; x := x p; y := y p;
     velocityY := 0;
     gravity := gravity p * -1;
     isOnGround := isOnGround p;
     rotation := rotation p |}.

Definition floorY (p : t) : Q :=
  canvas.height - CONFIG.game.groundHeight - height p.

Definition update (p : t) : t :=
  (* Apply gravity *)
  let v1 := velocityY p + gravity p in
  (* Limit fall speed *)
  let v2 :=
    if Qlt_bool CONFIG.player.maxSpeed (Math.abs v1)
    then Math.sign v1 * CONFIG.player.maxSpeed else v1 in
  let y1 := y p + v2 in
  (* Ground collision (bottom) *)
  let hitGround := Qlt_bool 0 (gravity p) && Qle_bool (floorY p) y1 in
  let y2 := if hitGround then floorY p else y1 in
  let v3 := if hitGround then 0 else v2 in
  let g1 := if hitGround then true else isOnGround p in
  (* Ceiling collision (top) *)
  let hitCeiling :=
    Qlt_bool (gravity p) 0 && Qle_bool y2 CONFIG.game.groundHeight in
  let y3 := if hitCeiling then CONFIG.game.groundHeight else y2 in
  let v4 := if hitCeiling then 0 else v3 in
  let g2 := if hitCeiling then true else g1 in
  {| width := width p; height := height p; x := x p;
     y := y3;
     velocityY := v4;
     gravity := gravity p;
     isOnGround := g2;
     (* Update rotation for visual effect *)
     rotation := if Qlt_bool 0 (gravity p) then 0 else Math.PI |}.

Definition reset (p : t) : t :=
  {| width := width p; height := height p; x := x p;
     y := CONFIG.game.groundHeight;
     velocityY := 0;
     gravity := CONFIG.player.gravity;
     isOnGround := isOnGround p;
     rotation := 0 |}.
End Player.

(** ** class Obstacle *)

Module Obstacle.
Record t := mk {
  width : Q;
  height : Q;
  x : Q;
  isTop : bool;
  y : Q;
  speed : Q
}.

(** The constructor draws the height, so it advances the generator. *)
Definition new (x0 : Q) (top : bool) (g : Rng) : t * Rng :=
  let (r, g1) := Math.random g in
  let h := r * 100 + 100 in
  ({| width := CONFIG.obstacle.width;
      height := h;
      x := x0;
      isTop := top;
      y := if top then CONFIG.game.groundHeight
           else canvas.height - CONFIG.game.groundHeight - h;
      speed := CONFIG.obstacle.speed |}, g1).

Definition update (o : t) : t :=
  {| width := width o; height := height o;
     x := x o - speed o;
     isTop := isTop o; y := y o;
     (* Gradually increase difficulty *)
     speed := speed o + CONFIG.obstacle.speedIncrease |}.

Definition isOffScreen (o : t) : bool :=
  Qlt_bool (x o + width o) 0.

Definition collidesWith (o : t) (player : Player.t) : bool :=
  Qlt_bool (Player.x player) (x o + width o) &&
  Qlt_bool (x o) (Player.x player + Player.width player) &&
  Qlt_bool (Player.y player) (y o + height o) &&
  Qlt_bool (y o) (Player.y player + Player.height player).
End Obstacle.

(** ** class Particle *)

Module Particle.
Record t := mk {
  x : Q;
  y : Q;
  vx : Q;
  vy : Q;
  life : Q;
  decay : Q;
  size : Q
}.

Definition new (x0 y0 : Q) (g : Rng) : t * Rng :=
  let (r1, g1) := Math.random g in
  let (r2, g2) := Math.random g1 in
  let (r3, g3) := Math.random g2 in
  ({| x := x0; y := y0;
      vx := (r1 - (1 # 2)) * 6;
      vy := (r2 - (1 # 2)) * 6;
      life := 1;
      decay := 1 # 50;
      size := r3 * 4 + 2 |}, g3).

Definition update (q : t) : t :=
  {| x := x q + vx q; y := y q + vy q; vx := vx q; vy := vy q;
     life := life q - decay q; decay := decay q; size := size q |}.

Definition isDead (q : t) : bool := Qle_bool (life q) 0.
End Particle.

(** ** The globals of the script *)

Record GameState := mkGameState {
  isRunning : bool;
  isPaused : bool;
  score : Q;
  highScore : Z;
  frame : Z
}.

(** What the script reads or writes of the page: the [hidden] and [show]
    classes of four elements and the text of three. *)
Record Dom := mkDom {
  startScreen_hidden : bool;
  gameOverScreen_hidden : bool;
  gameHint_hidden : bool;
  newHighScoreEl_show : bool;
  currentScoreEl : string;
  highScoreEl : string;
  finalScoreEl : string
}.

Record World := mkWorld {
  gameState : GameState;
  player : Player.t;
  obstacles : list Obstacle.t;
  particles : list Particle.t;
  lastObstacleFrame : Z;
  localStorage : gmap string string;
  dom : Dom;
  rng : Rng;
  (** the calls of [gameLoop] that [requestAnimationFrame] has queued *)
  animationFrames : nat
}.

Definition highScoreKey : string := "gravityRunnerHighScore".

Definition set_gameState (w : World) (s : GameState) : World :=
  mkWorld s (player w) (obstacles w) (particles w) (lastObstacleFrame w)
          (localStorage w) (dom w) (rng w) (animationFrames w).

Definition set_player (w : World) (p : Player.t) : World :=
  mkWorld (gameState w) p (obstacles w) (particles w) (lastObstacleFrame w)
          (localStorage w) (dom w) (rng w) (animationFrames w).

Definition set_obstacles (w : World) (l : list Obstacle.t) : World :=
  mkWorld (gameState w) (player w) l (particles w) (lastObstacleFrame w)
          (localStorage w) (dom w) (rng w) (animationFrames w).

Definition set_particles (w : World) (l : list Particle.t) : World :=
  mkWorld (gameState w) (player w) (obstacles w) l (lastObstacleFrame w)
          (localStorage w) (dom w) (rng w) (animationFrames w).

Definition set_lastObstacleFrame (w : World) (n : Z) : World :=
  mkWorld (gameState w) (player w) (obstacles w) (particles w) n
          (localStorage w) (dom w) (rng w) (animationFrames w).

Definition set_localStorage (w : World) (m : gmap string string) : World :=
  mkWorld (gameState w) (player w) (obstacles w) (particles w)
          (lastObstacleFrame w) m (dom w) (rng w) (animationFrames w).

Definition set_dom (w : World) (d : Dom) : World :=
  mkWorld (gameState w) (player w) (obstacles w) (particles w)
          (lastObstacleFrame w) (localStorage w) d (rng w) (animationFrames w).

Definition set_rng (w : World) (g : Rng) : World :=
  mkWorld (gameState w) (player w) (obstacles w) (particles w)
          (lastObstacleFrame w) (localStorage w) (dom w) g (animationFrames w).

Definition set_animationFrames (w : World) (n : nat) : World :=
  mkWorld (gameState w) (player w) (obstacles w) (particles w)
          (lastObstacleFrame w) (localStorage w) (dom w) (rng w) n.

(** [requestAnimationFrame(gameLoop)] *)
Definition requestAnimationFrame_gameLoop (w : World) : World :=
  set_animationFrames w (S (animationFrames w)).

Definition set_isRunning (s : GameState) (b : bool) : GameState :=
  mkGameState b (isPaused s) (score s) (highScore s) (frame s).

Definition set_score (s : GameState) (v : Q) : GameState :=
  mkGameState (isRunning s) (isPaused s) v (highScore s) (frame s).

Definition set_highScore (s : GameState) (v : Z) : GameState :=
  mkGameState (isRunning s) (isPaused s) (score s) v (frame s).

Definition set_frame (s : GameState) (n : Z) : GameState :=
  mkGameState (isRunning s) (isPaused s) (score s) (highScore s) n.

Definition set_startScreen_hidden (d : Dom) (b : bool) : Dom :=
  mkDom b (gameOverScreen_hidden d) (gameHint_hidden d)
        (newHighScoreEl_show d) (currentScoreEl d) (highScoreEl d)
        (finalScoreEl d).

Definition set_gameOverScreen_hidden (d : Dom) (b : bool) : Dom :=
  mkDom (startScreen_hidden d) b (gameHint_hidden d)
        (newHighScoreEl_show d) (currentScoreEl d) (highScoreEl d)
        (finalScoreEl d).

Definition set_gameHint_hidden (d : Dom) (b : bool) : Dom :=
  mkDom (startScreen_hidden d) (gameOverScreen_hidden d) b
        (newHighScoreEl_show d) (currentScoreEl d) (highScoreEl d)
        (finalScoreEl d).

Definition set_newHighScoreEl_show (d : Dom) (b : bool) : Dom :=
  mkDom (startScreen_hidden d) (gameOverScreen_hidden d) (gameHint_hidden d)
        b (currentScoreEl d) (highScoreEl d) (finalScoreEl d).

Definition set_currentScoreEl (d : Dom) (s : string) : Dom :=
  mkDom (startScreen_hidden d) (gameOverScreen_hidden d) (gameHint_hidden d)
        (newHighScoreEl_show d) s (highScoreEl d) (finalScoreEl d).

Definition set_highScoreEl (d : Dom) (s : string) : Dom :=
  mkDom (startScreen_hidden d) (gameOverScreen_hidden d) (gameHint_hidden d)
        (newHighScoreEl_show d) (currentScoreEl d) s (finalScoreEl d).

Definition set_finalScoreEl (d : Dom) (s : string) : Dom :=
  mkDom (startScreen_hidden d) (gameOverScreen_hidden d) (gameHint_hidden d)
        (newHighScoreEl_show d) (currentScoreEl d) (highScoreEl d) s.

(** The world when the script has been loaded.  [best] is the value of
    [parseInt(localStorage.getItem('gravityRunnerHighScore')) || 0], and
    [page] is the page as the markup gives it, in which the script writes
    the best score. *)
Definition initialWorld (storage : gmap string string) (best : Z)
    (page : Dom) (g : Rng) : World :=
  {| gameState := mkGameState false false 0 best 0;
     player := Player.new;
     obstacles := [];
     particles := [];
     lastObstacleFrame := 0;
     localStorage := storage;
     dom := set_highScoreEl page (Number_toString best);
     rng := g;
     animationFrames := 0 |}.

(** A page that shows the start screen and the hint, and no score yet. *)
Definition startPage : Dom :=
  mkDom false true false false
        (Number_toString 0) (Number_toString 0) (Number_toString 0).

(** ** Particle creation *)

Fixpoint createParticles_loop (n : nat) (x0 y0 : Q)
    (l : list Particle.t) (g : Rng) : list Particle.t * Rng :=
  match n with
  | O => (l, g)
  | S k =>
      let (q, g1) := Particle.new x0 y0 g in
      createParticles_loop k x0 y0 (l ++ [q]) g1
  end.

Definition createParticles (x0 y0 : Q) (w : World) : World :=
  let (l, g) := createParticles_loop 15 x0 y0 (particles w) (rng w) in
  set_rng (set_particles w l) g.

(** [player.flipGravity()] on the global [player]. *)
Definition Player_flipGravity (w : World) : World :=
  let p := Player.flipGravity_this (player w) in
  let w1 := set_player w p in
  (* Create particle effect *)
  let w2 := createParticles (Player.x p + Player.width p / 2)
                            (Player.y p + Player.height p / 2) w1 in
  (* Hide hint after first flip *)
  if negb (gameHint_hidden (dom w2))
  then set_dom w2 (set_gameHint_hidden (dom w2) true)
  else w2.

(** ** Obstacle generation *)

Definition generateObstacle (w : World) : World :=
  let (r, g1) := Math.random (rng w) in
  let gap := r * (CONFIG.obstacle.maxGap - CONFIG.obstacle.minGap)
             + CONFIG.obstacle.minGap in
  if Qlt_bool (gap / CONFIG.obstacle.speed)
              (inject_Z (frame (gameState w) - lastObstacleFrame w))
  then
    let (r2, g2) := Math.random g1 in
    let isTop := Qlt_bool (1 # 2) r2 in
    let (o, g3) := Obstacle.new canvas.width isTop g2 in
    set_lastObstacleFrame
      (set_rng (set_obstacles w (obstacles w ++ [o])) g3)
      (frame (gameState w))
  else set_rng w g1.

(** ** End of a run *)

Definition gameOver (w : World) : World :=
  let w1 := set_gameState w (set_isRunning (gameState w) false) in
  (* Update high score *)
  let finalScore := Math.floor (score (gameState w1)) in
  let w2 := set_dom w1 (set_finalScoreEl (dom w1)
                                         (Number_toString finalScore)) in
  let w3 :=
    if (highScore (gameState w2) <? finalScore)%Z then
      let w4 := set_gameState w2 (set_highScore (gameState w2) finalScore) in
      let w5 := set_localStorage w4
                  (<[ highScoreKey := Number_toString finalScore ]>
                     (localStorage w4)) in
      let w6 := set_dom w5 (set_highScoreEl (dom w5)
                                            (Number_toString finalScore)) in
      set_dom w6 (set_newHighScoreEl_show (dom w6) true)
    else set_dom w2 (set_newHighScoreEl_show (dom w2) false) in
  (* Show game over screen *)
  set_dom w3 (set_gameOverScreen_hidden (dom w3) false).

(** ** Collision detection *)

Fixpoint checkCollisions_loop (l : list Obstacle.t) (w : World) : World :=
  match l with
  | [] => w
  | obstacle :: rest =>
      if Obstacle.collidesWith obstacle (player w) then gameOver w
      else checkCollisions_loop rest w
  end.

Definition checkCollisions (w : World) : World :=
  checkCollisions_loop (obstacles w) w.

(** ** Update functions *)

Definition updateScore (w : World) : World :=
  let s := score (gameState w) + CONFIG.game.scoreMultiplier in
  let w1 := set_gameState w (set_score (gameState w) s) in
  set_dom w1 (set_currentScoreEl (dom w1) (Number_toString (Math.floor s))).

(** The two loops run from the last index down to 0 and splice the array
    they walk.  [n] is [i + 1].  Reading a missing element and calling a
    method on it throws; that is [None]. *)
Fixpoint updateObstacles_loop (n : nat) (l : list Obstacle.t)
  : option (list Obstacle.t) :=
  match n with
  | O => Some l
  | S i =>
      match l !! i with
      | None => None
      | Some o =>
          let o' := Obstacle.update o in
          let l1 := <[ i := o' ]> l in
          if Obstacle.isOffScreen o'
          then updateObstacles_loop i (delete i l1)
          else updateObstacles_loop i l1
      end
  end.

Fixpoint updateParticles_loop (n : nat) (l : list Particle.t)
  : option (list Particle.t) :=
  match n with
  | O => Some l
  | S i =>
      match l !! i with
      | None => None
      | Some q =>
          let q' := Particle.update q in
          let l1 := <[ i := q' ]> l in
          if Particle.isDead q'
          then updateParticles_loop i (delete i l1)
          else updateParticles_loop i l1
      end
  end.

(** Both loops start at [length - 1], so no read is out of range and the
    [None] branch below is never taken ([updateObstacles_loop_spec],
    [updateParticles_loop_spec]). *)
Definition updateObstacles (w : World) : World :=
  match updateObstacles_loop (length (obstacles w)) (obstacles w) with
  | Some l => set_obstacles w l
  | None => w
  end.

Definition updateParticles (w : World) : World :=
  match updateParticles_loop (length (particles w)) (particles w) with
  | Some l => set_particles w l
  | None => w
  end.

(** ** Game loop *)

Definition gameLoop (w : World) : World :=
  if negb (isRunning (gameState w)) then w else
  (* Update *)
  let w := set_player w (Player.update (player w)) in
  let w := updateObstacles w in
  let w := updateParticles w in
  let w := generateObstacle w in
  let w := updateScore w in
  let w := checkCollisions w in
  let w := set_gameState w (set_frame (gameState w)
                                      (frame (gameState w) + 1)%Z) in
  requestAnimationFrame_gameLoop w.

(** ** Game control *)

Definition startGame (w : World) : World :=
  (* Hide start screen *)
  let w := set_dom w (set_startScreen_hidden (dom w) true) in
  let w := set_dom w (set_gameHint_hidden (dom w) false) in
  (* Reset game state *)
  let w := set_gameState w (set_isRunning (gameState w) true) in
  let w := set_gameState w (set_score (gameState w) 0) in
  let w := set_gameState w (set_frame (gameState w) 0%Z) in
  let w := set_obstacles w [] in
  let w := set_particles w [] in
  let w := set_lastObstacleFrame w 0%Z in
  (* Reset player *)
  let w := set_player w (Player.reset (player w)) in
  (* Start game loop *)
  gameLoop w.

Definition restartGame (w : World) : World :=
  startGame (set_dom w (set_gameOverScreen_hidden (dom w) true)).

(** ** Event listeners

    The page calls the script back on four occasions; the browser runs a
    queued animation frame by calling [gameLoop]. *)

Inductive Event :=
| StartBtn_click
| RestartBtn_click
| Keydown (code : string)
| Canvas_click
| AnimationFrame.

Definition dispatch (e : Event) (w : World) : World :=
  match e with
  | StartBtn_click => startGame w
  | RestartBtn_click => restartGame w
  | Keydown code =>
      if String.eqb code "Space" && isRunning (gameState w)
      then Player_flipGravity w else w
  | Canvas_click =>
      if isRunning (gameState w) then Player_flipGravity w else w
  | AnimationFrame =>
      match animationFrames w with
      | O => w
      | S n => gameLoop (set_animationFrames w n)
      end
  end.

Definition run (es : list Event) (w : World) : World :=
  fold_left (fun w e => dispatch e w) es w.

(** ** Responsive canvas sizing

    [resizeCanvas] reads the inner size of the window and writes the size
    of the canvas on the page, [canvas.style.width] and
    [canvas.style.height], as a number of pixels; the function below
    returns these two numbers.  (It also assigns the two constants of the
    configuration to [canvas.width] and [canvas.height].) *)
Definition Math_min (a b : Q) : Q := if Qle_bool a b then a else b.

Definition resizeCanvas (innerWidth innerHeight : Q) : Q * Q :=
  let maxWidth := Math_min (innerWidth - 20) CONFIG.canvas.width in
  let maxHeight := Math_min (innerHeight * (7 # 10)) CONFIG.canvas.height in
  (* Maintain aspect ratio *)
  let aspectRatio := CONFIG.canvas.width / CONFIG.canvas.height in
  let newWidth := maxWidth in
  let newHeight := newWidth / aspectRatio in
  if Qlt_bool maxHeight newHeight
  then (maxHeight * aspectRatio, maxHeight)
  else (newWidth, newHeight).

(** * Vocabulary of the properties *)

(** ** Calls on the player

    The two methods that move the player, as the script calls them on the
    global [player]: [flipGravity] from the input listeners and [update]
    from the tick. *)

Inductive PlayerCall := Call_flipGravity | Call_update.

Definition call (c : PlayerCall) (w : World) : World :=
  match c with
  | Call_flipGravity => Player_flipGravity w
  | Call_update => set_player w (Player.update (player w))
  end.

Definition calls (cs : list PlayerCall) (w : World) : World :=
  fold_left (fun w c => call c w) cs w.

(** The two planes between which the player moves. *)
Definition ceilingPlane : Q := CONFIG.game.groundHeight.
Definition floorPlane : Q := canvas.height - CONFIG.game.groundHeight.

(** The speed limit of [Player.update], as a function of the velocity. *)
Definition limit (v : Q) : Q :=
  if Qlt_bool CONFIG.player.maxSpeed (Math.abs v)
  then Math.sign v * CONFIG.player.maxSpeed else v.

(** What every player of a run satisfies: it has the configured height, it
    lies between the two planes, and it never moves against gravity. *)
Definition Player_ok (p : Player.t) : Prop :=
  Player.height p == CONFIG.player.size /\
  CONFIG.game.groundHeight <= Player.y p /\
  Player.y p <= canvas.height - CONFIG.game.groundHeight - CONFIG.player.size /\
  ((0 < Player.gravity p /\ 0 <= Player.velocityY p) \/
   (Player.gravity p < 0 /\ Player.velocityY p <= 0)).

(** ** Rectangles

    The open intervals [(a1, a2)] and [(b1, b2)] overlap when some point
    lies strictly inside both. *)
Definition open_overlap (a1 a2 b1 b2 : Q) : Prop :=
  exists z : Q, (a1 < z /\ z < a2) /\ (b1 < z /\ z < b2).

(** Strict overlap of the rectangle of the player and of the rectangle of
    an obstacle: on both axes. *)
Definition strict_overlap (o : Obstacle.t) (p : Player.t) : Prop :=
  open_overlap (Player.x p) (Player.x p + Player.width p)
               (Obstacle.x o) (Obstacle.x o + Obstacle.width o) /\
  open_overlap (Player.y p) (Player.y p + Player.height p)
               (Obstacle.y o) (Obstacle.y o + Obstacle.height o).

(** The two rectangles touch without overlapping on some axis: one ends on
    that axis where the other starts. *)
Definition touching (o : Obstacle.t) (p : Player.t) : Prop :=
  Player.x p + Player.width p == Obstacle.x o \/
  Obstacle.x o + Obstacle.width o == Player.x p \/
  Player.y p + Player.height p == Obstacle.y o \/
  Obstacle.y o + Obstacle.height o == Player.y p.

Definition same_rectangle (o : Obstacle.t) (p : Player.t) : Prop :=
  Player.x p == Obstacle.x o /\ Player.y p == Obstacle.y o /\
  Player.width p == Obstacle.width o /\ Player.height p == Obstacle.height o.

(** ** The obstacles of a tick *)

(** The right edge of an obstacle. *)
Definition rightEdge (o : Obstacle.t) : Q := Obstacle.x o + Obstacle.width o.

(** ** The shape of the two update loops

    [updateObstacles_loop] and [updateParticles_loop] are the same loop up
    to the class of the elements: update the element at [i], splice it out
    when it is finished, go on with [i - 1]. *)
Section SpliceLoop.
Context {A : Type} (upd : A -> A) (finished : A -> bool).

Fixpoint splice_loop (n : nat) (l : list A) : option (list A) :=
  match n with
  | O => Some l
  | S i =>
      match l !! i with
      | None => None
      | Some a =>
          if finished (upd a)
          then splice_loop i (delete i (<[ i := upd a ]> l))
          else splice_loop i (<[ i := upd a ]> l)
      end
  end.
End SpliceLoop.

(** ** The obstacle generator

    [drawn w k] is the number that the [k]-th next call of [Math.random]
    returns in the world [w]. *)
Definition drawn (w : World) (k : nat) : Q :=
  stream (rng w) (k + cursor (rng w)).

(** The gap that [generateObstacle] draws in the world [w]. *)
Definition gap (w : World) : Q :=
  drawn w 0 * (CONFIG.obstacle.maxGap - CONFIG.obstacle.minGap)
  + CONFIG.obstacle.minGap.

Definition framesSinceLastSpawn (w : World) : Z :=
  (frame (gameState w) - lastObstacleFrame w)%Z.

(** The test of [generateObstacle]. *)
Definition spawn_due (w : World) : bool :=
  Qlt_bool (gap w / CONFIG.obstacle.speed)
           (inject_Z (framesSinceLastSpawn w)).

(** The obstacle that [generateObstacle] builds when the test holds. *)
Definition spawned (w : World) : Obstacle.t :=
  let h := drawn w 2 * 100 + 100 in
  let top := Qlt_bool (1 # 2) (drawn w 1) in
  Obstacle.mk CONFIG.obstacle.width h canvas.width top
    (if top then CONFIG.game.groundHeight
     else canvas.height - CONFIG.game.groundHeight - h)
    CONFIG.obstacle.speed.

Definition advance (k : nat) (g : Rng) : Rng :=
  mkRng (stream g) (k + cursor g).

(** ** The tick

    The world in which [gameLoop] calls [generateObstacle]: the player, the
    obstacles and the particles have been updated. *)
Definition beforeGenerate (w : World) : World :=
  updateParticles (updateObstacles (set_player w (Player.update (player w)))).

(** The world in which [gameLoop] calls [checkCollisions]. *)
Definition beforeCollisions (w : World) : World :=
  updateScore (generateObstacle (beforeGenerate w)).

(** ** A world one tick before a crash

    The world on which the 165th animation frame of a run calls [gameLoop],
    when every draw of [Math.random] is 0 and the player never flips: the
    player rests on the floor, four floor obstacles have been spawned (at
    the frames 41, 82, 123 and 164), and the oldest one, which has moved
    123 times, is about to reach the player.  The rationals are written in
    lowest terms. *)
Definition crashWorld : World :=
  {| gameState := mkGameState true false 165 0 165;
     player := Player.mk 30 30 150 320 0 (1 # 2) true 0;
     obstacles :=
       [Obstacle.mk 40 100 (362497 # 2000) false 250 (10123 # 2000);
        Obstacle.mk 40 100 (776679 # 2000) false 250 (5041 # 1000);
        Obstacle.mk 40 100 (59459 # 100) false 250 (10041 # 2000);
        Obstacle.mk 40 100 800 false 250 5];
     particles := [];
     lastObstacleFrame := 164;
     localStorage := ∅;
     dom := mkDom true true false false
                  (Number_toString 165) (Number_toString 0)
                  (Number_toString 0);
     rng := mkRng (fun _ => 0) 173;
     animationFrames := 0 |}.

(** The same world with every rational in lowest terms. *)
Definition Player_Qred (p : Player.t) : Player.t :=
  Player.mk (Qred (Player.width p)) (Qred (Player.height p))
            (Qred (Player.x p)) (Qred (Player.y p))
            (Qred (Player.velocityY p)) (Qred (Player.gravity p))
            (Player.isOnGround p) (Qred (Player.rotation p)).

Definition Obstacle_Qred (o : Obstacle.t) : Obstacle.t :=
  Obstacle.mk (Qred (Obstacle.width o)) (Qred (Obstacle.height o))
              (Qred (Obstacle.x o)) (Obstacle.isTop o)
              (Qred (Obstacle.y o)) (Qred (Obstacle.speed o)).

Definition Particle_Qred (q : Particle.t) : Particle.t :=
  Particle.mk (Qred (Particle.x q)) (Qred (Particle.y q))
              (Qred (Particle.vx q)) (Qred (Particle.vy q))
              (Qred (Particle.life q)) (Qred (Particle.decay q))
              (Qred (Particle.size q)).

Definition World_Qred (w : World) : World :=
  mkWorld (set_score (gameState w) (Qred (score (gameState w))))
          (Player_Qred (player w))
          (map Obstacle_Qred (obstacles w))
          (map Particle_Qred (particles w))
          (lastObstacleFrame w) (localStorage w) (dom w) (rng w)
          (animationFrames w).

(** The page is loaded with nothing stored, the start button is clicked,
    and 164 animation frames follow. *)
Definition play164 : World :=
  run (StartBtn_click :: repeat AnimationFrame 164)
      (initialWorld ∅ 0 startPage (mkRng (fun _ => 0) 0)).

(** ** Worlds up to the representation of rationals

    [Q] has several representations of a rational ([1 # 2], [2 # 4]); the
    functions of the script compute with any of them and never tell them
    apart.  Two worlds are the same up to those representations when their
    numbers are equal as rationals and everything else is equal. *)
Definition Player_eq (p p' : Player.t) : Prop :=
  Player.width p == Player.width p' /\
  Player.height p == Player.height p' /\
  Player.x p == Player.x p' /\
  Player.y p == Player.y p' /\
  Player.velocityY p == Player.velocityY p' /\
  Player.gravity p == Player.gravity p' /\
  Player.isOnGround p = Player.isOnGround p' /\
  Player.rotation p == Player.rotation p'.

Definition Obstacle_eq (o o' : Obstacle.t) : Prop :=
  Obstacle.width o == Obstacle.width o' /\
  Obstacle.height o == Obstacle.height o' /\
  Obstacle.x o == Obstacle.x o' /\
  Obstacle.isTop o = Obstacle.isTop o' /\
  Obstacle.y o == Obstacle.y o' /\
  Obstacle.speed o == Obstacle.speed o'.

Definition Particle_eq (q q' : Particle.t) : Prop :=
  Particle.x q == Particle.x q' /\
  Particle.y q == Particle.y q' /\
  Particle.vx q == Particle.vx q' /\
  Particle.vy q == Particle.vy q' /\
  Particle.life q == Particle.life q' /\
  Particle.decay q == Particle.decay q' /\
  Particle.size q == Particle.size q'.

Definition GameState_eq (s s' : GameState) : Prop :=
  isRunning s = isRunning s' /\
  isPaused s = isPaused s' /\
  score s == score s' /\
  highScore s = highScore s' /\
  frame s = frame s'.

Record World_eq (w w' : World) : Prop := mkWorld_eq {
  eq_gameState : GameState_eq (gameState w) (gameState w');
  eq_player : Player_eq (player w) (player w');
  eq_obstacles : Forall2 Obstacle_eq (obstacles w) (obstacles w');
  eq_particles : Forall2 Particle_eq (particles w) (particles w');
  eq_lastObstacleFrame : lastObstacleFrame w = lastObstacleFrame w';
  eq_localStorage : localStorage w = localStorage w';
  eq_dom : dom w = dom w';
  eq_rng : rng w = rng w';
  eq_animationFrames : animationFrames w = animationFrames w'
}.

(** Playing with every rational put in lowest terms after every event. *)
Definition run_Qred (es : list Event) (w : World) : World :=
  fold_left (fun w e => World_Qred (dispatch e w)) es w.

(** ** The ticks of a sequence of events *)

(** The world on which [startGame] calls [gameLoop]. *)
Definition resetWorld (w : World) : World :=
  let w := set_dom w (set_startScreen_hidden (dom w) true) in
  let w := set_dom w (set_gameHint_hidden (dom w) false) in
  let w := set_gameState w (set_isRunning (gameState w) true) in
  let w := set_gameState w (set_score (gameState w) 0) in
  let w := set_gameState w (set_frame (gameState w) 0%Z) in
  let w := set_obstacles w [] in
  let w := set_particles w [] in
  let w := set_lastObstacleFrame w 0%Z in
  set_player w (Player.reset (player w)).

(** The world on which an event calls [gameLoop], when it calls it. *)
Definition ticked (e : Event) (w : World) : option World :=
  match e with
  | StartBtn_click => Some (resetWorld w)
  | RestartBtn_click =>
      Some (resetWorld (set_dom w (set_gameOverScreen_hidden (dom w) true)))
  | AnimationFrame =>
      match animationFrames w with
      | O => None
      | S n => Some (set_animationFrames w n)
      end
  | Keydown _ | Canvas_click => None
  end.

(** The entry of a call of [gameLoop] in the log of the ticks: nothing when
    the game is not running, else the frame of the tick and whether the
    generator spawns in it. *)
Definition gameLoop_log (w : World) : list (Z * bool) :=
  if isRunning (gameState w)
  then [(frame (gameState w), spawn_due (beforeGenerate w))]
  else [].

Fixpoint tick_log (es : list Event) (w : World) : list (Z * bool) :=
  match es with
  | [] => []
  | e :: es' =>
      match ticked e w with
      | Some w1 => gameLoop_log w1
      | None => []
      end ++ tick_log es' (dispatch e w)
  end.

(** The frames of the ticks that spawn. *)
Definition spawn_frames (log : list (Z * bool)) : list Z :=
  map fst (List.filter snd log).

(** An event of a run in progress: anything but a start or a restart. *)
Definition in_run (e : Event) : bool :=
  match e with
  | StartBtn_click | RestartBtn_click => false
  | _ => true
  end.

(** Every frame of the list is at least 41 after the one before it, the
    first one at least 41 after [prev]. *)
Fixpoint gaps_ok (prev : Z) (fs : list Z) : Prop :=
  match fs with
  | [] => True
  | f :: fs' => (41 <= f - prev)%Z /\ gaps_ok f fs'
  end.

(** None of the first [n] ticks spawns. *)
Fixpoint quiet (n : nat) (l : list bool) : Prop :=
  match n, l with
  | S k, b :: l' => b = false /\ quiet k l'
  | _, _ => True
  end.

(** After a tick that spawns, none of the next 40 ticks spawns. *)
Fixpoint apart (l : list bool) : Prop :=
  match l with
  | [] => True
  | b :: l' => (b = true -> quiet 40 l') /\ apart l'
  end.

(** The same with a count [q] of the ticks since the last spawn. *)
Fixpoint spaced (q : nat) (l : list bool) : Prop :=
  match l with
  | [] => True
  | true :: l' => (40 <= q)%nat /\ spaced 0 l'
  | false :: l' => spaced (S q) l'
  end.

(** ** Bursts of particles

    The particles that [createParticles] makes from the generator [g], one
    after the other. *)
Fixpoint burst (n : nat) (x0 y0 : Q) (g : Rng) : list Particle.t :=
  match n with
  | O => []
  | S k => fst (Particle.new x0 y0 g) :: burst k x0 y0 (advance 3 g)
  end.

(** A particle as its constructor leaves it, at the origin [(x0, y0)]. *)
Definition fresh_particle (x0 y0 : Q) (q : Particle.t) : Prop :=
  Particle.x q = x0 /\ Particle.y q = y0 /\
  Particle.life q = 1 /\ Particle.decay q = 1 # 50.

(** The ranges of the random fields of a particle. *)
Definition particle_in_range (q : Particle.t) : Prop :=
  (-3 <= Particle.vx q /\ Particle.vx q < 3) /\
  (-3 <= Particle.vy q /\ Particle.vy q < 3) /\
  (2 <= Particle.size q /\ Particle.size q < 6).

(** Some obstacle of the collection overlaps the player. *)
Definition crashes (w : World) : bool :=
  existsb (fun o => Obstacle.collidesWith o (player w)) (obstacles w).

(** ** What a run keeps

    The best score as the script holds it in three places. *)
Definition best_view (w : World) : Z * gmap string string * string :=
  (highScore (gameState w), localStorage w, highScoreEl (dom w)).

(** The three places agree and the best score has not gone below [best0]:
    the page shows the best score, and the storage holds it unless the best
    score is still [best0] and the storage still [storage0]. *)
Definition best_kept (best0 : Z) (storage0 : gmap string string)
    (v : Z * gmap string string * string) : Prop :=
  let '(best, storage, shown) := v in
  shown = Number_toString best /\
  (best0 <= best)%Z /\
  ((best = best0 /\ storage = storage0) \/
   storage !! highScoreKey = Some (Number_toString best)).

(** ** The age of an obstacle

    [triangle k] is 0 + 1 + ... + (k - 1). *)
Fixpoint triangle (k : nat) : Z :=
  match k with
  | O => 0
  | S j => triangle j + Z.of_nat j
  end.

(** The width, the speed and the position of an obstacle that was spawned
    at the right edge and has moved [a] times since. *)
Definition aged (a : nat) (o : Obstacle.t) : Prop :=
  Obstacle.width o == CONFIG.obstacle.width /\
  Obstacle.speed o
  == CONFIG.obstacle.speed
     + inject_Z (Z.of_nat a) * CONFIG.obstacle.speedIncrease /\
  Obstacle.x o
  == canvas.width - inject_Z (Z.of_nat a) * CONFIG.obstacle.speed
     - inject_Z (triangle a) * CONFIG.obstacle.speedIncrease.

(** The obstacles are on the screen and in the order of their spawns, each
    at least 41 moves older than the next one, the youngest one at least
    [young] moves old. *)
Fixpoint paced (young : Z) (l : list Obstacle.t) : Prop :=
  match l with
  | [] => True
  | o :: l' =>
      (exists a : nat,
         aged a o /\ (a <= 166)%nat /\
         (young + 41 * Z.of_nat (length l') <= Z.of_nat a)%Z) /\
      paced young l'
  end.

(** The obstacles are paced by the frames since the last spawn. *)
Definition paced_world (w : World) : Prop :=
  (0 <= framesSinceLastSpawn w)%Z /\
  paced (framesSinceLastSpawn w - 1) (obstacles w).

(** A play in which the player flips once, to the ceiling, and then waits
    for 205 animation frames while every draw is 0. *)
Definition play205 : list Event :=
  StartBtn_click :: Canvas_click :: repeat AnimationFrame 205.

(** * Properties *)

(** ** Boolean comparisons against the order of [Q] *)

Lemma Qlt_bool_iff (a b : Q) : Qlt_bool a b = true <-> a < b.
Proof. unfold Qlt_bool, Qlt. apply Z.ltb_lt. Qed.

Lemma Qlt_bool_false_iff (a b : Q) : Qlt_bool a b = false <-> b <= a.
Proof. unfold Qlt_bool, Qle. rewrite Z.ltb_ge. reflexivity. Qed.

Lemma Qle_bool_false_iff (a b : Q) : Qle_bool a b = false <-> b < a.
Proof.
  unfold Qle_bool, Qlt. rewrite Z.leb_gt. reflexivity.
Qed.

(** Turns every boolean test on numbers in the context and the goal into
    the inequality it decides. *)
Ltac reflect_tests :=
  repeat match goal with
  | H : Qlt_bool _ _ = true |- _ => apply Qlt_bool_iff in H
  | H : Qlt_bool _ _ = false |- _ => apply Qlt_bool_false_iff in H
  | H : Qle_bool _ _ = true |- _ => apply Qle_bool_iff in H
  | H : Qle_bool _ _ = false |- _ => apply Qle_bool_false_iff in H
  end.

(** ** The player *)

Lemma limit_pos (v : Q) : 0 < v -> 0 < limit v.
Proof.
  intros Hv. unfold limit, Math.sign, CONFIG.player.maxSpeed.
  destruct (Qlt_bool 8 (Math.abs v)); [|exact Hv].
  apply Qlt_bool_iff in Hv. rewrite Hv. reflexivity.
Qed.

Lemma limit_neg (v : Q) : v < 0 -> limit v < 0.
Proof.
  intros Hv. unfold limit, Math.sign, CONFIG.player.maxSpeed.
  destruct (Qlt_bool 8 (Math.abs v)); [|exact Hv].
  assert (H0 : Qlt_bool 0 v = false) by (apply Qlt_bool_false_iff; lra).
  apply Qlt_bool_iff in Hv. rewrite H0, Hv. reflexivity.
Qed.

Lemma Player_ok_reset (p : Player.t) :
  Player.height p == CONFIG.player.size -> Player_ok (Player.reset p).
Proof.
  intros Hh. unfold Player_ok; cbn.
  unfold canvas.height, CONFIG.canvas.height, CONFIG.game.groundHeight,
    CONFIG.player.size, CONFIG.player.gravity in *.
  repeat split; lra.
Qed.

Lemma Player_ok_flipGravity (p : Player.t) :
  Player_ok p -> Player_ok (Player.flipGravity_this p).
Proof.
  unfold Player_ok; cbn. intros (Hh & Hlo & Hhi & Hdir).
  repeat split; try assumption.
  destruct Hdir as [[Hg _] | [Hg _]]; [right | left]; split; lra.
Qed.

Lemma Player_ok_update (p : Player.t) :
  Player_ok p -> Player_ok (Player.update p).
Proof.
  unfold Player_ok. intros (Hh & Hlo & Hhi & Hdir).
  unfold Player.update, Player.floorY.
  fold (limit (Player.velocityY p + Player.gravity p)).
  set (v := limit (Player.velocityY p + Player.gravity p)).
  unfold canvas.height, CONFIG.canvas.height, CONFIG.game.groundHeight,
    CONFIG.player.size in *.
  destruct Hdir as [[Hg Hv] | [Hg Hv]].
  - assert (Hpos : 0 < v) by (apply limit_pos; lra).
    assert (Hg1 : Qlt_bool 0 (Player.gravity p) = true)
      by (apply Qlt_bool_iff; exact Hg).
    assert (Hg2 : Qlt_bool (Player.gravity p) 0 = false)
      by (apply Qlt_bool_false_iff; lra).
    rewrite Hg1, Hg2. cbn.
    destruct (Qle_bool _ _) eqn:E; reflect_tests; cbn;
      repeat split; try lra; left; split; lra.
  - assert (Hneg : v < 0) by (apply limit_neg; lra).
    assert (Hg1 : Qlt_bool 0 (Player.gravity p) = false)
      by (apply Qlt_bool_false_iff; lra).
    assert (Hg2 : Qlt_bool (Player.gravity p) 0 = true)
      by (apply Qlt_bool_iff; exact Hg).
    rewrite Hg1, Hg2. cbn.
    destruct (Qle_bool _ _) eqn:E; reflect_tests; cbn;
      repeat split; try lra; right; split; lra.
Qed.

Lemma player_flipGravity (w : World) :
  player (Player_flipGravity w) = Player.flipGravity_this (player w).
Proof.
  unfold Player_flipGravity, createParticles. cbv zeta.
  destruct (createParticles_loop _ _ _ _ _) as [l g].
  destruct (negb _); reflexivity.
Qed.

Lemma Player_ok_call (c : PlayerCall) (w : World) :
  Player_ok (player w) -> Player_ok (player (call c w)).
Proof.
  intros H. destruct c; cbn.
  - rewrite player_flipGravity. apply Player_ok_flipGravity, H.
  - apply Player_ok_update, H.
Qed.

Lemma Player_ok_calls (cs : list PlayerCall) (w : World) :
  Player_ok (player w) -> Player_ok (player (calls cs w)).
Proof.
  revert w. induction cs as [|c cs IH]; intros w H; cbn.
  - exact H.
  - apply IH, Player_ok_call, H.
Qed.

Lemma Qmult_opp1_twice (g : Q) : g * -1 * -1 = g.
Proof.
  destruct g as [a b]. unfold Qmult; cbn.
  f_equal; lia.
Qed.

(** C2.  For every state, two calls of [flipGravity()] in a row give back
    the gravity the player had, and every single call multiplies the
    gravity by -1 and sets the velocity to 0, whatever the state is. *)
Theorem flipGravity_twice (w : World) :
  let w1 := Player_flipGravity w in
  let w2 := Player_flipGravity w1 in
  Player.gravity (player w2) = Player.gravity (player w) /\
  Player.gravity (player w1) = Player.gravity (player w) * -1 /\
  Player.velocityY (player w1) = 0 /\
  Player.velocityY (player w2) = 0.
Proof.
  cbn. rewrite !player_flipGravity. cbn.
  repeat split. apply Qmult_opp1_twice.
Qed.

(** C7.  From the reset state, 100 calls of [update()] without any flip
    leave the player at y = 320, the floor plane less its height, with
    velocity 0 and the on-ground flag set. *)
Theorem hundred_updates_land (w : World) :
  let w0 := set_player w (Player.reset Player.new) in
  let p := player (calls (repeat Call_update 100) w0) in
  Player.y p = 320 /\
  Player.y p == floorPlane - Player.height p /\
  Player.velocityY p = 0 /\
  Player.isOnGround p = true.
Proof.
  intros w0 p.
  assert (E : p = Nat.iter 100 Player.update (Player.reset Player.new)).
  { subst p w0. generalize (Player.reset Player.new). intros q.
    destruct w; cbn. reflexivity. }
  rewrite E. vm_compute. repeat split.
Qed.

(** ** Collision detection *)

Lemma open_overlap_iff (a1 a2 b1 b2 : Q) :
  a1 < a2 -> b1 < b2 ->
  open_overlap a1 a2 b1 b2 <-> (a1 < b2 /\ b1 < a2).
Proof.
  intros Ha Hb. split.
  - intros (z & [H1 H2] & [H3 H4]). split; lra.
  - intros [H1 H2].
    destruct (Qlt_le_dec a1 b1) as [Hlo | Hlo];
      destruct (Qlt_le_dec a2 b2) as [Hhi | Hhi].
    + exists ((b1 + a2) * (1 # 2)). repeat split; lra.
    + exists ((b1 + b2) * (1 # 2)). repeat split; lra.
    + exists ((a1 + a2) * (1 # 2)). repeat split; lra.
    + exists ((a1 + b2) * (1 # 2)). repeat split; lra.
Qed.

Lemma collidesWith_true_iff (o : Obstacle.t) (p : Player.t) :
  Obstacle.collidesWith o p = true <->
  (Player.x p < Obstacle.x o + Obstacle.width o /\
   Obstacle.x o < Player.x p + Player.width p) /\
  (Player.y p < Obstacle.y o + Obstacle.height o /\
   Obstacle.y o < Player.y p + Player.height p).
Proof.
  unfold Obstacle.collidesWith.
  rewrite !andb_true_iff, !Qlt_bool_iff. tauto.
Qed.



(** ** Removal of obstacles and particles *)

Section SpliceLoopFacts.
Context {A : Type} (upd : A -> A) (finished : A -> bool).

(** After the indices [n - 1], ..., [0] have been visited, the first [n]
    elements are updated and filtered, and the others are untouched. *)
Lemma splice_loop_spec (n : nat) (l : list A) :
  (n <= length l)%nat ->
  splice_loop upd finished n l =
  Some (List.filter (fun a => negb (finished a)) (map upd (take n l))
        ++ drop n l).
Proof.
  revert l. induction n as [|i IH]; intros l Hn.
  - cbn. rewrite drop_0. reflexivity.
  - destruct (lookup_lt_is_Some_2 l i) as [a Ha]; [lia|].
    cbn [splice_loop]. rewrite Ha.
    assert (Hlen : i = length (take i l)) by (rewrite length_take; lia).
    rewrite (take_S_r l i a Ha), map_app, List.filter_app.
    cbn [map List.filter].
    rewrite (insert_take_drop l i (upd a)) by lia.
    destruct (finished (upd a)) eqn:Hd; cbn [negb].
    + pose proof (delete_middle (take i l) (drop (S i) l) (upd a)) as Ed.
      rewrite <- Hlen in Ed. rewrite Ed.
      rewrite IH by (rewrite length_app; lia).
      rewrite (take_app_length' _ _ _ Hlen), (drop_app_length' _ _ _ Hlen).
      rewrite app_nil_r. reflexivity.
    + rewrite IH by (rewrite length_app; cbn; lia).
      rewrite (take_app_length' _ _ _ Hlen), (drop_app_length' _ _ _ Hlen).
      rewrite <- app_assoc. reflexivity.
Qed.

Lemma splice_loop_all (l : list A) :
  splice_loop upd finished (length l) l =
  Some (List.filter (fun a => negb (finished a)) (map upd l)).
Proof.
  rewrite splice_loop_spec by lia.
  rewrite take_ge, drop_ge, app_nil_r by lia. reflexivity.
Qed.
End SpliceLoopFacts.

Lemma updateObstacles_loop_splice (n : nat) (l : list Obstacle.t) :
  updateObstacles_loop n l =
  splice_loop Obstacle.update Obstacle.isOffScreen n l.
Proof.
  revert l. induction n as [|i IH]; intros l; cbn; [reflexivity|].
  destruct (l !! i); [|reflexivity].
  destruct (Obstacle.isOffScreen _); apply IH.
Qed.

Lemma updateParticles_loop_splice (n : nat) (l : list Particle.t) :
  updateParticles_loop n l =
  splice_loop Particle.update Particle.isDead n l.
Proof.
  revert l. induction n as [|i IH]; intros l; cbn; [reflexivity|].
  destruct (l !! i); [|reflexivity].
  destruct (Particle.isDead _); apply IH.
Qed.

(** The loops never read out of range, and what they compute. *)
Lemma updateObstacles_loop_spec (l : list Obstacle.t) :
  updateObstacles_loop (length l) l =
  Some (List.filter (fun o => negb (Obstacle.isOffScreen o))
                    (map Obstacle.update l)).
Proof. rewrite updateObstacles_loop_splice. apply splice_loop_all. Qed.

Lemma updateParticles_loop_spec (l : list Particle.t) :
  updateParticles_loop (length l) l =
  Some (List.filter (fun q => negb (Particle.isDead q))
                    (map Particle.update l)).
Proof. rewrite updateParticles_loop_splice. apply splice_loop_all. Qed.

Lemma updateObstacles_eq (w : World) :
  updateObstacles w =
  set_obstacles w (List.filter (fun o => negb (Obstacle.isOffScreen o))
                               (map Obstacle.update (obstacles w))).
Proof.
  unfold updateObstacles. rewrite updateObstacles_loop_spec. reflexivity.
Qed.

Lemma updateParticles_eq (w : World) :
  updateParticles w =
  set_particles w (List.filter (fun q => negb (Particle.isDead q))
                               (map Particle.update (particles w))).
Proof.
  unfold updateParticles. rewrite updateParticles_loop_spec. reflexivity.
Qed.

(** C4.  The obstacle update of a tick moves every obstacle and keeps, in
    their order, exactly those whose right edge is then not strictly left
    of 0: an obstacle of the collection is removed if and only if its right
    edge has gone strictly past x = 0, and it stays when its right edge is
    at 0 or right of it. *)
Theorem updateObstacles_removes_offscreen (w : World) (o : Obstacle.t) :
  List.In o (obstacles w) ->
  let l' := obstacles (updateObstacles w) in
  let o' := Obstacle.update o in
  l' = List.filter (fun a => negb (Obstacle.isOffScreen a))
                   (map Obstacle.update (obstacles w)) /\
  (~ List.In o' l' <-> rightEdge o' < 0) /\
  (0 <= rightEdge o' -> List.In o' l').
Proof.
  intros Hin l' o'. subst l'. rewrite updateObstacles_eq.
  cbn [obstacles set_obstacles].
  split; [reflexivity|].
  assert (Hmap : List.In o' (map Obstacle.update (obstacles w)))
    by (apply List.in_map, Hin).
  assert (Hoff : Obstacle.isOffScreen o' = true <-> rightEdge o' < 0)
    by apply Qlt_bool_iff.
  split; [split|].
  - intros Hnot. apply Hoff.
    destruct (Obstacle.isOffScreen o') eqn:E; [reflexivity|].
    exfalso. apply Hnot, List.filter_In. rewrite E.
    split; [exact Hmap | reflexivity].
  - intros Hlt Hin'. apply List.filter_In in Hin' as [_ Hk].
    apply Hoff in Hlt. rewrite Hlt in Hk. discriminate.
  - intros Hge. apply List.filter_In. split; [exact Hmap|].
    apply negb_true_iff, not_true_is_false. intros E.
    apply Hoff in E. lra.
Qed.

Lemma updateObstacles_removes_offscreen_witness :
  let gone := Obstacle.mk 40 100 (-36) true 50 5 in
  let edge := Obstacle.mk 40 100 (-35) true 50 5 in
  let w := set_obstacles (initialWorld ∅ 0 startPage (mkRng (fun _ => 0) 0))
                         [gone; edge] in
  List.In gone (obstacles w) /\
  obstacles (updateObstacles w) = [Obstacle.update edge] /\
  rightEdge (Obstacle.update gone) < 0 /\
  rightEdge (Obstacle.update edge) == 0.
Proof.
  intros gone edge w.
  assert (Hin : List.In gone (obstacles w)) by (left; reflexivity).
  split; [exact Hin|].
  destruct (updateObstacles_removes_offscreen w gone Hin) as (E & _ & _).
  split; [rewrite E; reflexivity|]. split; reflexivity.
Defined.

(** ** The obstacle generator *)

Lemma generateObstacle_eq (w : World) :
  generateObstacle w =
  if spawn_due w
  then set_lastObstacleFrame
         (set_rng (set_obstacles w (obstacles w ++ [spawned w]))
                  (advance 3 (rng w)))
         (frame (gameState w))
  else set_rng w (advance 1 (rng w)).
Proof. reflexivity. Qed.

Lemma gap_range (w : World) :
  0 <= drawn w 0 -> drawn w 0 < 1 ->
  CONFIG.obstacle.minGap <= gap w /\ gap w < CONFIG.obstacle.maxGap.
Proof.
  unfold gap, CONFIG.obstacle.minGap, CONFIG.obstacle.maxGap.
  intros H0 H1. split; lra.
Qed.



(** ** The tick *)

Lemma gameLoop_running (w : World) :
  isRunning (gameState w) = true ->
  gameLoop w =
  let w1 := checkCollisions (beforeCollisions w) in
  requestAnimationFrame_gameLoop
    (set_gameState w1 (set_frame (gameState w1) (frame (gameState w1) + 1)%Z)).
Proof. intros H. unfold gameLoop. rewrite H. reflexivity. Qed.

Lemma gameLoop_not_running (w : World) :
  isRunning (gameState w) = false -> gameLoop w = w.
Proof. intros H. unfold gameLoop. rewrite H. reflexivity. Qed.

Lemma gameState_beforeGenerate (w : World) :
  gameState (beforeGenerate w) = gameState w.
Proof.
  unfold beforeGenerate. rewrite updateParticles_eq, updateObstacles_eq.
  reflexivity.
Qed.

Lemma gameState_generateObstacle (w : World) :
  gameState (generateObstacle w) = gameState w.
Proof. rewrite generateObstacle_eq. destruct (spawn_due w); reflexivity. Qed.

Lemma gameOver_gameState (w : World) :
  gameState (gameOver w) =
  let finalScore := Math.floor (score (gameState w)) in
  mkGameState false (isPaused (gameState w)) (score (gameState w))
    (if (highScore (gameState w) <? finalScore)%Z
     then finalScore else highScore (gameState w))
    (frame (gameState w)).
Proof.
  unfold gameOver. cbn.
  destruct (highScore (gameState w) <? _)%Z; reflexivity.
Qed.

Lemma checkCollisions_loop_cases (l : list Obstacle.t) (w : World) :
  checkCollisions_loop l w = w \/ checkCollisions_loop l w = gameOver w.
Proof.
  induction l as [|o l IH]; cbn; [left; reflexivity|].
  destruct (Obstacle.collidesWith o (player w));
    [right; reflexivity | exact IH].
Qed.

Lemma checkCollisions_cases (w : World) :
  checkCollisions w = w \/ checkCollisions w = gameOver w.
Proof. apply checkCollisions_loop_cases. Qed.

Lemma score_checkCollisions (w : World) :
  score (gameState (checkCollisions w)) = score (gameState w).
Proof.
  destruct (checkCollisions_cases w) as [E | E]; rewrite E; [reflexivity|].
  rewrite gameOver_gameState. reflexivity.
Qed.

Lemma frame_checkCollisions (w : World) :
  frame (gameState (checkCollisions w)) = frame (gameState w).
Proof.
  destruct (checkCollisions_cases w) as [E | E]; rewrite E; [reflexivity|].
  rewrite gameOver_gameState. reflexivity.
Qed.

Lemma gameState_beforeCollisions (w : World) :
  gameState (beforeCollisions w) =
  set_score (gameState w) (score (gameState w) + CONFIG.game.scoreMultiplier).
Proof.
  unfold beforeCollisions, updateScore. cbn [gameState set_dom set_gameState].
  rewrite gameState_generateObstacle, gameState_beforeGenerate. reflexivity.
Qed.

(** C5.  A tick that starts in the running state adds exactly the
    configured multiplier, 1, to the score; a tick that starts when the
    game is not running (idle or over) returns at once and changes
    nothing, so not the score either. *)
Theorem gameLoop_score (w : World) :
  (isRunning (gameState w) = true ->
   score (gameState (gameLoop w))
   = score (gameState w) + CONFIG.game.scoreMultiplier /\
   score (gameState (gameLoop w)) == score (gameState w) + 1) /\
  (isRunning (gameState w) = false ->
   gameLoop w = w /\ score (gameState (gameLoop w)) = score (gameState w)).
Proof.
  split.
  - intros H. rewrite (gameLoop_running w H).
    cbv zeta.
    unfold requestAnimationFrame_gameLoop, set_animationFrames,
      set_gameState, set_frame.
    cbn [gameState score].
    rewrite score_checkCollisions, gameState_beforeCollisions.
    cbn [set_score score]. unfold CONFIG.game.scoreMultiplier.
    split; reflexivity.
  - intros H. rewrite (gameLoop_not_running w H). split; reflexivity.
Qed.

Lemma gameLoop_score_witness :
  let idle := initialWorld ∅ 0 startPage (mkRng (fun _ => 0) 0) in
  let running := set_gameState idle (mkGameState true false 7 0 7) in
  (isRunning (gameState running) = true /\
   score (gameState (gameLoop running)) == 8) /\
  (isRunning (gameState idle) = false /\ gameLoop idle = idle).
Proof.
  intros idle running. split.
  - split; [reflexivity|].
    destruct (gameLoop_score running) as [Hrun _].
    destruct (Hrun eq_refl) as [_ E]. rewrite E. reflexivity.
  - split; [reflexivity|].
    destruct (gameLoop_score idle) as [_ Hidle].
    exact (proj1 (Hidle eq_refl)).
Defined.

(** ** The player during play *)

Lemma player_gameOver (w : World) : player (gameOver w) = player w.
Proof. unfold gameOver. cbn. destruct (_ <? _)%Z; reflexivity. Qed.

Lemma player_checkCollisions (w : World) :
  player (checkCollisions w) = player w.
Proof.
  destruct (checkCollisions_cases w) as [E | E]; rewrite E;
    [reflexivity | apply player_gameOver].
Qed.

Lemma player_gameLoop (w : World) :
  player (gameLoop w) =
  if isRunning (gameState w) then Player.update (player w) else player w.
Proof.
  destruct (isRunning (gameState w)) eqn:Erun.
  - rewrite (gameLoop_running w Erun). cbv zeta.
    unfold requestAnimationFrame_gameLoop, set_animationFrames, set_gameState.
    cbn [player]. rewrite player_checkCollisions.
    unfold beforeCollisions, updateScore. cbn [player set_dom set_gameState].
    rewrite generateObstacle_eq. unfold beforeGenerate.
    rewrite updateParticles_eq, updateObstacles_eq.
    destruct (spawn_due _); reflexivity.
  - rewrite (gameLoop_not_running w Erun). reflexivity.
Qed.

Lemma Player_ok_gameLoop (w : World) :
  Player_ok (player w) -> Player_ok (player (gameLoop w)).
Proof.
  intros H. rewrite player_gameLoop.
  destruct (isRunning _); [apply Player_ok_update, H | exact H].
Qed.

Lemma Player_ok_dispatch (e : Event) (w : World) :
  Player_ok (player w) -> Player_ok (player (dispatch e w)).
Proof.
  intros H. destruct e; cbn [dispatch].
  - apply Player_ok_gameLoop. apply Player_ok_reset, H.
  - apply Player_ok_gameLoop. apply Player_ok_reset, H.
  - destruct (_ && _); [|exact H].
    rewrite player_flipGravity. apply Player_ok_flipGravity, H.
  - destruct (isRunning _); [|exact H].
    rewrite player_flipGravity. apply Player_ok_flipGravity, H.
  - destruct (animationFrames w); [exact H|].
    apply Player_ok_gameLoop, H.
Qed.

Lemma Player_ok_run (es : list Event) (w : World) :
  Player_ok (player w) -> Player_ok (player (run es w)).
Proof.
  revert w. induction es as [|e es IH]; intros w H; cbn.
  - exact H.
  - apply IH, Player_ok_dispatch, H.
Qed.

Lemma Player_ok_new : Player_ok Player.new.
Proof.
  unfold Player_ok; cbn.
  unfold canvas.height, CONFIG.canvas.height, CONFIG.game.groundHeight,
    CONFIG.player.size, CONFIG.player.gravity.
  repeat split; lra.
Qed.

(** C1.  Whatever sequence of [flipGravity()] and [update()] calls follows
    the reset of the player, the vertical position of the player stays
    between the ceiling plane and the floor plane less the height of the
    player, that is between 50 and 320; in particular it does after every
    [update()].  The same holds in the game itself, after any sequence of
    clicks, key presses and animation frames since the page was loaded. *)
Theorem player_stays_between_planes (w : World) (cs : list PlayerCall) :
  (let w0 := set_player w (Player.reset Player.new) in
   let p := player (calls cs w0) in
   (ceilingPlane <= Player.y p /\
    Player.y p <= floorPlane - Player.height p) /\
   (50 <= Player.y p /\ Player.y p <= 320)) /\
  (forall (storage : gmap string string) (best : Z) (page : Dom) (g : Rng)
          (es : list Event),
     let p := player (run es (initialWorld storage best page g)) in
     50 <= Player.y p /\ Player.y p <= 320).
Proof.
  assert (Hrange : forall p : Player.t, Player_ok p ->
            (ceilingPlane <= Player.y p /\
             Player.y p <= floorPlane - Player.height p) /\
            (50 <= Player.y p /\ Player.y p <= 320)).
  { intros p (Hh & Hlo & Hhi & _).
    unfold ceilingPlane, floorPlane.
    unfold canvas.height, CONFIG.canvas.height, CONFIG.game.groundHeight,
      CONFIG.player.size in *.
    repeat split; lra. }
  split.
  - cbv zeta. apply Hrange, Player_ok_calls, Player_ok_reset. reflexivity.
  - intros storage best page g es p. apply Hrange.
    apply Player_ok_run, Player_ok_new.
Qed.

(** ** The end of a run *)

Lemma gameOver_localStorage (w : World) :
  localStorage (gameOver w) =
  let finalScore := Math.floor (score (gameState w)) in
  if (highScore (gameState w) <? finalScore)%Z
  then <[ highScoreKey := Number_toString finalScore ]> (localStorage w)
  else localStorage w.
Proof.
  unfold gameOver. cbn.
  destruct (highScore (gameState w) <? _)%Z; reflexivity.
Qed.

(** C6.  At the end of a run, with the final score the floor of the score:
    if the final score is strictly greater than the best score, the best
    score becomes the final score and is written to the storage under the
    key ["gravityRunnerHighScore"]; otherwise the best score and the
    storage are unchanged. *)
Theorem gameOver_best_score (w : World) :
  let finalScore := Math.floor (score (gameState w)) in
  let w' := gameOver w in
  ((highScore (gameState w) < finalScore)%Z ->
   highScore (gameState w') = finalScore /\
   localStorage w' =
   <[ "gravityRunnerHighScore" := Number_toString finalScore ]>
     (localStorage w)) /\
  ((finalScore <= highScore (gameState w))%Z ->
   highScore (gameState w') = highScore (gameState w) /\
   localStorage w' = localStorage w).
Proof.
  intros finalScore w'. subst w'.
  rewrite gameOver_gameState, gameOver_localStorage. cbv zeta.
  fold finalScore. cbn [highScore]. split.
  - intros H. apply Z.ltb_lt in H. rewrite H. split; reflexivity.
  - intros H. apply Z.ltb_ge in H. rewrite H. split; reflexivity.
Qed.

(** The two scenarios: a run that scores 50, and a run that scores 10, with
    a stored best of 30. *)
Lemma gameOver_best_score_witness :
  let stored : gmap string string := {[ "gravityRunnerHighScore" := "30" ]} in
  let w0 := initialWorld stored 30 startPage (mkRng (fun _ => 0) 0) in
  let w50 := set_gameState w0 (mkGameState true false 50 30 50) in
  let w10 := set_gameState w0 (mkGameState true false 10 30 10) in
  ((30 < Math.floor 50)%Z /\
   highScore (gameState (gameOver w50)) = 50%Z /\
   localStorage (gameOver w50) !! "gravityRunnerHighScore" = Some "50") /\
  ((Math.floor 10 <= 30)%Z /\
   highScore (gameState (gameOver w10)) = 30%Z /\
   localStorage (gameOver w10) = stored).
Proof.
  intros stored w0 w50 w10. split.
  - assert (H : (highScore (gameState w50)
                 < Math.floor (score (gameState w50)))%Z) by reflexivity.
    destruct (gameOver_best_score w50) as [Hnew _].
    destruct (Hnew H) as [Hbest Hstore].
    split; [reflexivity|]. split; [exact Hbest|].
    rewrite Hstore. apply lookup_insert_eq.
  - assert (H : (Math.floor (score (gameState w10))
                 <= highScore (gameState w10))%Z) by discriminate.
    destruct (gameOver_best_score w10) as [_ Hold].
    destruct (Hold H) as [Hbest Hstore].
    split; [discriminate|]. split; [exact Hbest | exact Hstore].
Defined.

(** ** Scheduling of the tick *)

Lemma animationFrames_checkCollisions (w : World) :
  animationFrames (checkCollisions w) = animationFrames w.
Proof.
  destruct (checkCollisions_cases w) as [E | E]; rewrite E; [reflexivity|].
  unfold gameOver. cbn. destruct (_ <? _)%Z; reflexivity.
Qed.

Lemma animationFrames_beforeCollisions (w : World) :
  animationFrames (beforeCollisions w) = animationFrames w.
Proof.
  unfold beforeCollisions, updateScore, beforeGenerate.
  cbn [animationFrames set_dom set_gameState].
  rewrite generateObstacle_eq, updateParticles_eq, updateObstacles_eq.
  destruct (spawn_due _); reflexivity.
Qed.

Lemma animationFrames_gameLoop (w : World) :
  isRunning (gameState w) = true ->
  animationFrames (gameLoop w) = S (animationFrames w).
Proof.
  intros H. rewrite (gameLoop_running w H). cbv zeta.
  unfold requestAnimationFrame_gameLoop, set_animationFrames.
  cbn [animationFrames set_gameState].
  rewrite animationFrames_checkCollisions, animationFrames_beforeCollisions.
  reflexivity.
Qed.

(** ** The script does not see the representation of rationals *)

Lemma Qlt_bool_comp (a a' b b' : Q) :
  a == a' -> b == b' -> Qlt_bool a b = Qlt_bool a' b'.
Proof.
  intros Ha Hb. destruct (Qlt_bool a' b') eqn:E.
  - apply Qlt_bool_iff. apply Qlt_bool_iff in E. lra.
  - apply Qlt_bool_false_iff. apply Qlt_bool_false_iff in E. lra.
Qed.

Lemma Qle_bool_comp (a a' b b' : Q) :
  a == a' -> b == b' -> Qle_bool a b = Qle_bool a' b'.
Proof. intros Ha Hb. rewrite Ha, Hb. reflexivity. Qed.

Lemma sign_comp (a a' : Q) : a == a' -> Math.sign a = Math.sign a'.
Proof.
  intros H. unfold Math.sign.
  rewrite (Qlt_bool_comp 0 0 a a'), (Qlt_bool_comp a a' 0 0)
    by (assumption || reflexivity).
  reflexivity.
Qed.

Lemma limit_comp (a a' : Q) : a == a' -> limit a == limit a'.
Proof.
  intros H. unfold limit.
  rewrite (sign_comp a a' H).
  rewrite (Qlt_bool_comp CONFIG.player.maxSpeed CONFIG.player.maxSpeed
             (Math.abs a) (Math.abs a'))
    by (reflexivity || (unfold Math.abs; rewrite H; reflexivity)).
  destruct (Qlt_bool _ _); [reflexivity | exact H].
Qed.

Lemma Player_update_comp (p p' : Player.t) :
  Player_eq p p' -> Player_eq (Player.update p) (Player.update p').
Proof.
  intros (Hw & Hh & Hx & Hy & Hv & Hg & Hgr & Hr).
  assert (Hl : limit (Player.velocityY p + Player.gravity p)
               == limit (Player.velocityY p' + Player.gravity p'))
    by (apply limit_comp; lra).
  unfold Player.update, Player.floorY.
  fold (limit (Player.velocityY p + Player.gravity p)).
  fold (limit (Player.velocityY p' + Player.gravity p')).
  set (v := limit (Player.velocityY p + Player.gravity p)) in *.
  set (v' := limit (Player.velocityY p' + Player.gravity p')) in *.
  rewrite (Qlt_bool_comp 0 0 (Player.gravity p) (Player.gravity p'))
    by (assumption || reflexivity).
  rewrite (Qlt_bool_comp (Player.gravity p) (Player.gravity p') 0 0)
    by (assumption || reflexivity).
  rewrite (Qle_bool_comp
             (canvas.height - CONFIG.game.groundHeight - Player.height p)
             (canvas.height - CONFIG.game.groundHeight - Player.height p')
             (Player.y p + v) (Player.y p' + v')) by lra.
  destruct (Qlt_bool 0 (Player.gravity p')), (Qlt_bool (Player.gravity p') 0),
    (Qle_bool _ (Player.y p' + v')); cbn [andb].
  all: try (rewrite (Qle_bool_comp _
                       (canvas.height - CONFIG.game.groundHeight
                        - Player.height p') _ CONFIG.game.groundHeight)
              by (lra || reflexivity)).
  all: try (rewrite (Qle_bool_comp (Player.y p + v) (Player.y p' + v')
                       _ CONFIG.game.groundHeight)
              by (lra || reflexivity)).
  all: try destruct (Qle_bool _ CONFIG.game.groundHeight).
  all: unfold Player_eq; cbn; repeat split;
    try assumption; try reflexivity; try lra.
Qed.

Lemma Player_reset_comp (p p' : Player.t) :
  Player_eq p p' -> Player_eq (Player.reset p) (Player.reset p').
Proof.
  intros (Hw & Hh & Hx & Hy & Hv & Hg & Hgr & Hr).
  unfold Player_eq; cbn. repeat split; assumption || reflexivity.
Qed.

Lemma Player_flipGravity_this_comp (p p' : Player.t) :
  Player_eq p p' ->
  Player_eq (Player.flipGravity_this p) (Player.flipGravity_this p').
Proof.
  intros (Hw & Hh & Hx & Hy & Hv & Hg & Hgr & Hr).
  unfold Player_eq; cbn. repeat split; try assumption; try reflexivity; lra.
Qed.

Lemma Obstacle_update_comp (o o' : Obstacle.t) :
  Obstacle_eq o o' -> Obstacle_eq (Obstacle.update o) (Obstacle.update o').
Proof.
  intros (Hw & Hh & Hx & Ht & Hy & Hs).
  unfold Obstacle_eq; cbn. repeat split; try assumption; lra.
Qed.

Lemma Obstacle_isOffScreen_comp (o o' : Obstacle.t) :
  Obstacle_eq o o' -> Obstacle.isOffScreen o = Obstacle.isOffScreen o'.
Proof.
  intros (Hw & Hh & Hx & Ht & Hy & Hs).
  apply Qlt_bool_comp; lra.
Qed.

Lemma Obstacle_collidesWith_comp (o o' : Obstacle.t) (p p' : Player.t) :
  Obstacle_eq o o' -> Player_eq p p' ->
  Obstacle.collidesWith o p = Obstacle.collidesWith o' p'.
Proof.
  intros (Hw & Hh & Hx & Ht & Hy & Hs) (Pw & Ph & Px & Py & _).
  unfold Obstacle.collidesWith.
  f_equal; [f_equal; [f_equal|]|]; apply Qlt_bool_comp; lra.
Qed.

Lemma Particle_update_comp (q q' : Particle.t) :
  Particle_eq q q' -> Particle_eq (Particle.update q) (Particle.update q').
Proof.
  intros (Hx & Hy & Hvx & Hvy & Hl & Hd & Hs).
  unfold Particle_eq; cbn. repeat split; try assumption; lra.
Qed.

Lemma Particle_isDead_comp (q q' : Particle.t) :
  Particle_eq q q' -> Particle.isDead q = Particle.isDead q'.
Proof.
  intros (Hx & Hy & Hvx & Hvy & Hl & Hd & Hs).
  apply Qle_bool_comp; [exact Hl | reflexivity].
Qed.

Section UpdateFilter.
Context {A : Type} (R : A -> A -> Prop) (upd : A -> A) (finished : A -> bool).
Hypothesis upd_comp : forall a b : A, R a b -> R (upd a) (upd b).
Hypothesis finished_comp : forall a b : A, R a b -> finished a = finished b.

Lemma update_filter_comp (l l' : list A) :
    Forall2 R l l' ->
    Forall2 R (List.filter (fun a => negb (finished a)) (map upd l))
              (List.filter (fun a => negb (finished a)) (map upd l')).
Proof.
    induction 1 as [|a b l l' Hab Hl IH]; cbn; [constructor|].
    rewrite (finished_comp (upd a) (upd b)) by (apply upd_comp, Hab).
    destruct (finished (upd b)); cbn; [exact IH|].
    constructor; [apply upd_comp, Hab | exact IH].
Qed.
End UpdateFilter.

(** Projections of updated worlds. *)
Ltac world_simpl :=
  cbn [gameState player obstacles particles lastObstacleFrame localStorage
       dom rng animationFrames
       set_gameState set_player set_obstacles set_particles
       set_lastObstacleFrame set_localStorage set_dom set_rng
       set_animationFrames requestAnimationFrame_gameLoop
       isRunning isPaused score highScore frame
       set_isRunning set_score set_highScore set_frame] in *.

Lemma createParticles_loop_comp (n : nat) (x0 x0' y0 y0' : Q) (g : Rng) :
  x0 == x0' -> y0 == y0' ->
  forall l l' : list Particle.t,
    Forall2 Particle_eq l l' ->
    Forall2 Particle_eq (fst (createParticles_loop n x0 y0 l g))
                        (fst (createParticles_loop n x0' y0' l' g)) /\
    snd (createParticles_loop n x0 y0 l g)
    = snd (createParticles_loop n x0' y0' l' g).
Proof.
  intros Hx Hy. revert g. induction n as [|k IH]; intros g l l' Hl; cbn.
  - split; [exact Hl | reflexivity].
  - apply IH. apply Forall2_app; [exact Hl|].
    constructor; [|constructor].
    unfold Particle_eq; cbn. repeat split; assumption || reflexivity.
Qed.

Lemma set_player_comp (w w' : World) (p p' : Player.t) :
  World_eq w w' -> Player_eq p p' ->
  World_eq (set_player w p) (set_player w' p').
Proof. intros [] Hp. constructor; cbn; assumption. Qed.

Lemma set_dom_comp (w w' : World) (d : Dom) :
  World_eq w w' -> World_eq (set_dom w d) (set_dom w' d).
Proof. intros []. constructor; cbn; assumption || reflexivity. Qed.

Lemma set_animationFrames_comp (w w' : World) (n : nat) :
  World_eq w w' ->
  World_eq (set_animationFrames w n) (set_animationFrames w' n).
Proof. intros []. constructor; cbn; assumption || reflexivity. Qed.

Lemma createParticles_comp (x0 x0' y0 y0' : Q) (w w' : World) :
  x0 == x0' -> y0 == y0' -> World_eq w w' ->
  World_eq (createParticles x0 y0 w) (createParticles x0' y0' w').
Proof.
  intros Hx Hy Hw. unfold createParticles.
  destruct (createParticles_loop_comp 15 x0 x0' y0 y0' (rng w) Hx Hy
              (particles w) (particles w') (eq_particles w w' Hw)) as [Hl Hg].
  rewrite <- (eq_rng w w' Hw).
  destruct (createParticles_loop 15 x0 y0 (particles w) (rng w)) as [l g].
  destruct (createParticles_loop 15 x0' y0' (particles w') (rng w)) as [l' g'].
  cbn in Hl, Hg. subst g'. destruct Hw.
  constructor; cbn; assumption || reflexivity.
Qed.

Lemma Player_flipGravity_comp (w w' : World) :
  World_eq w w' -> World_eq (Player_flipGravity w) (Player_flipGravity w').
Proof.
  intros Hw. unfold Player_flipGravity. cbv zeta.
  pose proof (Player_flipGravity_this_comp _ _ (eq_player w w' Hw)) as Hp.
  pose proof (set_player_comp w w' _ _ Hw Hp) as Hw1.
  destruct Hp as (Pw & Ph & Px & Py & _).
  match goal with
  | |- World_eq (if negb (gameHint_hidden (dom ?a)) then _ else _)
                (if negb (gameHint_hidden (dom ?b)) then _ else _) =>
      assert (Hw2 : World_eq a b)
  end.
  { apply createParticles_comp; [| |exact Hw1].
    - unfold Qdiv. rewrite Px, Pw. reflexivity.
    - unfold Qdiv. rewrite Py, Ph. reflexivity. }
  rewrite <- (eq_dom _ _ Hw2).
  destruct (negb _); [apply set_dom_comp|]; exact Hw2.
Qed.

Lemma updateObstacles_comp (w w' : World) :
  World_eq w w' -> World_eq (updateObstacles w) (updateObstacles w').
Proof.
  intros Hw. rewrite !updateObstacles_eq. destruct Hw.
  constructor; cbn; try assumption.
  apply (update_filter_comp Obstacle_eq);
    [apply Obstacle_update_comp | apply Obstacle_isOffScreen_comp | assumption].
Qed.

Lemma updateParticles_comp (w w' : World) :
  World_eq w w' -> World_eq (updateParticles w) (updateParticles w').
Proof.
  intros Hw. rewrite !updateParticles_eq. destruct Hw.
  constructor; cbn; try assumption.
  apply (update_filter_comp Particle_eq);
    [apply Particle_update_comp | apply Particle_isDead_comp | assumption].
Qed.

Lemma beforeGenerate_comp (w w' : World) :
  World_eq w w' -> World_eq (beforeGenerate w) (beforeGenerate w').
Proof.
  intros Hw. unfold beforeGenerate.
  apply updateParticles_comp, updateObstacles_comp, set_player_comp;
    [exact Hw | apply Player_update_comp, (eq_player w w' Hw)].
Qed.

Lemma spawn_due_comp (w w' : World) :
  World_eq w w' -> spawn_due w = spawn_due w' /\ spawned w = spawned w'.
Proof.
  intros [(_ & _ & _ & _ & Hf) _ _ _ Hl _ _ Hr _].
  unfold spawn_due, spawned, gap, drawn, framesSinceLastSpawn.
  rewrite Hf, Hl, Hr. split; reflexivity.
Qed.

Lemma Obstacle_eq_refl (o : Obstacle.t) : Obstacle_eq o o.
Proof. unfold Obstacle_eq. repeat split; reflexivity. Qed.

Lemma generateObstacle_comp (w w' : World) :
  World_eq w w' -> World_eq (generateObstacle w) (generateObstacle w').
Proof.
  intros Hw. rewrite !generateObstacle_eq.
  destruct (spawn_due_comp w w' Hw) as [Ed Es]. rewrite <- Ed, <- Es.
  destruct Hw as [Hgs Hp Ho Hpa Hl Hst Hd Hr Ha].
  destruct (spawn_due w); constructor; cbn; try assumption;
    try (rewrite Hr; reflexivity).
  - apply Forall2_app; [exact Ho|].
    constructor; [apply Obstacle_eq_refl | constructor].
  - destruct Hgs as (_ & _ & _ & _ & Hf). exact Hf.
Qed.

Lemma updateScore_comp (w w' : World) :
  World_eq w w' -> World_eq (updateScore w) (updateScore w').
Proof.
  intros [Hgs Hp Ho Hpa Hl Hst Hd Hr Ha].
  destruct Hgs as (H1 & H2 & Hs & H4 & H5).
  assert (Hs' : score (gameState w) + CONFIG.game.scoreMultiplier
                == score (gameState w') + CONFIG.game.scoreMultiplier)
    by (rewrite Hs; reflexivity).
  assert (Hfl : Math.floor (score (gameState w) + CONFIG.game.scoreMultiplier)
                = Math.floor (score (gameState w')
                              + CONFIG.game.scoreMultiplier))
    by (unfold Math.floor; rewrite Hs'; reflexivity).
  unfold updateScore. cbv zeta. world_simpl. rewrite Hfl, Hd.
  constructor; world_simpl; try assumption; try reflexivity.
  repeat split; assumption.
Qed.

Lemma gameOver_comp (w w' : World) :
  World_eq w w' -> World_eq (gameOver w) (gameOver w').
Proof.
  intros [Hgs Hp Ho Hpa Hl Hst Hd Hr Ha].
  destruct Hgs as (H1 & H2 & Hs & H4 & H5).
  assert (Hfl : Math.floor (score (gameState w))
                = Math.floor (score (gameState w')))
    by (unfold Math.floor; rewrite Hs; reflexivity).
  unfold gameOver. cbv zeta. world_simpl. rewrite Hfl, H4, Hd, Hst.
  destruct (_ <? _)%Z; constructor; world_simpl;
    try assumption; try reflexivity; repeat split; assumption.
Qed.

Lemma checkCollisions_comp (w w' : World) :
  World_eq w w' -> World_eq (checkCollisions w) (checkCollisions w').
Proof.
  intros Hw. unfold checkCollisions.
  pose proof (eq_obstacles w w' Hw) as Ho.
  induction Ho as [|o o' l l' Hoo Hl IH]; cbn; [exact Hw|].
  rewrite (Obstacle_collidesWith_comp o o' (player w) (player w') Hoo
             (eq_player w w' Hw)).
  destruct (Obstacle.collidesWith o' (player w'));
    [apply gameOver_comp, Hw | exact IH].
Qed.

Lemma next_frame_comp (w w' : World) :
  World_eq w w' ->
  World_eq
    (requestAnimationFrame_gameLoop
       (set_gameState w (set_frame (gameState w)
                                   (frame (gameState w) + 1)%Z)))
    (requestAnimationFrame_gameLoop
       (set_gameState w' (set_frame (gameState w')
                                    (frame (gameState w') + 1)%Z))).
Proof.
  intros [Hgs Hp Ho Hpa Hl Hst Hd Hr Ha].
  destruct Hgs as (G1 & G2 & G3 & G4 & G5).
  constructor; world_simpl; try assumption.
  - unfold GameState_eq. world_simpl. rewrite G5. repeat split; assumption.
  - rewrite Ha. reflexivity.
Qed.

Lemma gameLoop_comp (w w' : World) :
  World_eq w w' -> World_eq (gameLoop w) (gameLoop w').
Proof.
  intros Hw.
  assert (Erun : isRunning (gameState w) = isRunning (gameState w'))
    by (destruct Hw as [(H & _) _ _ _ _ _ _ _ _]; exact H).
  destruct (isRunning (gameState w')) eqn:E'.
  - rewrite (gameLoop_running w Erun), (gameLoop_running w' E'). cbv zeta.
    apply next_frame_comp, checkCollisions_comp. unfold beforeCollisions.
    apply updateScore_comp, generateObstacle_comp, beforeGenerate_comp, Hw.
  - rewrite (gameLoop_not_running w Erun), (gameLoop_not_running w' E').
    exact Hw.
Qed.

Lemma resetWorld_comp (w w' : World) :
  World_eq w w' -> World_eq (resetWorld w) (resetWorld w').
Proof.
  intros [Hgs Hp Ho Hpa Hl Hst Hd Hr Ha].
  destruct Hgs as (G1 & G2 & G3 & G4 & G5).
  unfold resetWorld. cbv zeta. world_simpl. rewrite Hd.
  constructor; world_simpl; try assumption; try reflexivity.
  - unfold GameState_eq. world_simpl. repeat split; assumption || reflexivity.
  - apply Player_reset_comp, Hp.
  - constructor.
  - constructor.
Qed.

Lemma dispatch_comp (e : Event) (w w' : World) :
  World_eq w w' -> World_eq (dispatch e w) (dispatch e w').
Proof.
  intros Hw.
  assert (Erun : isRunning (gameState w) = isRunning (gameState w'))
    by (destruct Hw as [(H & _) _ _ _ _ _ _ _ _]; exact H).
  destruct e; cbn [dispatch].
  - apply (gameLoop_comp (resetWorld w) (resetWorld w')), resetWorld_comp, Hw.
  - apply (gameLoop_comp (resetWorld _) (resetWorld _)), resetWorld_comp.
    rewrite (eq_dom w w' Hw). apply set_dom_comp, Hw.
  - rewrite Erun. destruct (_ && _); [apply Player_flipGravity_comp|]; exact Hw.
  - rewrite Erun.
    destruct (isRunning (gameState w'));
      [apply Player_flipGravity_comp|]; exact Hw.
  - rewrite (eq_animationFrames w w' Hw).
    destruct (animationFrames w'); [exact Hw|].
    apply gameLoop_comp, set_animationFrames_comp, Hw.
Qed.

Lemma World_Qred_eq (w : World) : World_eq w (World_Qred w).
Proof.
  assert (HQ : forall a : Q, a == Qred a)
    by (intros a; symmetry; apply Qred_correct).
  constructor; cbn; try reflexivity.
  - unfold GameState_eq; cbn. repeat split; try reflexivity. apply HQ.
  - unfold Player_eq; cbn. repeat split; try reflexivity; apply HQ.
  - induction (obstacles w); cbn; constructor; [|assumption].
    unfold Obstacle_eq; cbn. repeat split; try reflexivity; apply HQ.
  - induction (particles w); cbn; constructor; [|assumption].
    unfold Particle_eq; cbn. repeat split; try reflexivity; apply HQ.
Qed.

Lemma World_eq_refl (w : World) : World_eq w w.
Proof.
  constructor; try reflexivity.
  - unfold GameState_eq. repeat split; reflexivity.
  - unfold Player_eq. repeat split; reflexivity.
  - induction (obstacles w); constructor; [apply Obstacle_eq_refl | assumption].
  - induction (particles w); constructor; [|assumption].
    unfold Particle_eq. repeat split; reflexivity.
Qed.

Lemma Player_eq_trans (p1 p2 p3 : Player.t) :
  Player_eq p1 p2 -> Player_eq p2 p3 -> Player_eq p1 p3.
Proof.
  intros (A1 & A2 & A3 & A4 & A5 & A6 & A7 & A8)
         (B1 & B2 & B3 & B4 & B5 & B6 & B7 & B8).
  unfold Player_eq. repeat split; try lra. congruence.
Qed.

Lemma Obstacle_eq_trans (o1 o2 o3 : Obstacle.t) :
  Obstacle_eq o1 o2 -> Obstacle_eq o2 o3 -> Obstacle_eq o1 o3.
Proof.
  intros (A1 & A2 & A3 & A4 & A5 & A6) (B1 & B2 & B3 & B4 & B5 & B6).
  unfold Obstacle_eq. repeat split; try lra. congruence.
Qed.

Lemma Particle_eq_trans (q1 q2 q3 : Particle.t) :
  Particle_eq q1 q2 -> Particle_eq q2 q3 -> Particle_eq q1 q3.
Proof.
  intros (A1 & A2 & A3 & A4 & A5 & A6 & A7) (B1 & B2 & B3 & B4 & B5 & B6 & B7).
  unfold Particle_eq. repeat split; lra.
Qed.

Lemma Forall2_trans' {A : Type} (R : A -> A -> Prop) :
  (forall a b c : A, R a b -> R b c -> R a c) ->
  forall l1 l2 l3 : list A,
    Forall2 R l1 l2 -> Forall2 R l2 l3 -> Forall2 R l1 l3.
Proof.
  intros HR l1 l2 l3 H12. revert l3.
  induction H12 as [|a b l1 l2 Hab _ IH]; intros l3 H23;
    inversion H23; subst; constructor; eauto.
Qed.

Lemma World_eq_trans (w1 w2 w3 : World) :
  World_eq w1 w2 -> World_eq w2 w3 -> World_eq w1 w3.
Proof.
  intros [Ag Ap Ao Apa Al Ast Ad Ar Aa] [Bg Bp Bo Bpa Bl Bst Bd Br Ba].
  constructor; try congruence.
  - destruct Ag as (A1 & A2 & A3 & A4 & A5), Bg as (B1 & B2 & B3 & B4 & B5).
    unfold GameState_eq. repeat split; try congruence. lra.
  - exact (Player_eq_trans _ _ _ Ap Bp).
  - exact (Forall2_trans' _ Obstacle_eq_trans _ _ _ Ao Bo).
  - exact (Forall2_trans' _ Particle_eq_trans _ _ _ Apa Bpa).
Qed.

(** Playing with the rationals put in lowest terms after every event
    gives the same worlds. *)
Lemma run_Qred_eq (es : list Event) :
  forall w w' : World,
    World_eq w w' -> World_eq (run es w) (run_Qred es w').
Proof.
  induction es as [|e es IH]; intros w w' Hw; cbn; [exact Hw|].
  apply IH. apply (World_eq_trans _ (dispatch e w')).
  - apply dispatch_comp, Hw.
  - apply World_Qred_eq.
Qed.

Lemma run_Qred_play164 :
  run_Qred (StartBtn_click :: repeat AnimationFrame 164)
           (initialWorld ∅ 0 startPage (mkRng (fun _ => 0) 0))
  = set_animationFrames crashWorld 1.
Proof. vm_compute. reflexivity. Qed.

Lemma play164_eq : World_eq play164 (set_animationFrames crashWorld 1).
Proof.
  rewrite <- run_Qred_play164. apply run_Qred_eq, World_eq_refl.
Qed.

(** [crashWorld] is a world of real play: the world on which the animation
    frame that follows [play164] calls [gameLoop]. *)
Lemma crashWorld_in_play :
  exists w : World,
    ticked AnimationFrame play164 = Some w /\ World_eq w crashWorld.
Proof.
  pose proof play164_eq as Hplay.
  exists (set_animationFrames play164 0). split.
  - unfold ticked. rewrite (eq_animationFrames _ _ Hplay). reflexivity.
  - apply (set_animationFrames_comp _ _ 0%nat) in Hplay. exact Hplay.
Qed.

(** In that play the next animation frame is the fatal tick: it ends the
    run and leaves one animation frame queued. *)
Lemma fatal_tick_in_play :
  isRunning (gameState play164) = true /\
  let w := dispatch AnimationFrame play164 in
  isRunning (gameState w) = false /\ animationFrames w = 1%nat.
Proof.
  pose proof play164_eq as Hplay.
  split.
  - destruct (eq_gameState _ _ Hplay) as (E & _). rewrite E. reflexivity.
  - cbn [dispatch]. rewrite (eq_animationFrames _ _ Hplay).
    cbn [animationFrames set_animationFrames].
    apply (set_animationFrames_comp _ _ 0%nat), gameLoop_comp in Hplay.
    destruct (eq_gameState _ _ Hplay) as (E & _).
    rewrite E, (eq_animationFrames _ _ Hplay).
    vm_compute. split; reflexivity.
Qed.

(** ** The fatal tick *)




(** ** The pace of the generator *)

Lemma Rng_in_range_stream (g g' : Rng) :
  stream g' = stream g -> Rng_in_range g -> Rng_in_range g'.
Proof. unfold Rng_in_range. intros E H n. rewrite E. apply H. Qed.

Lemma spawn_due_41 (w : World) :
  Rng_in_range (rng w) -> spawn_due w = true ->
  (41 <= framesSinceLastSpawn w)%Z.
Proof.
  intros Hr Hdue. apply Qlt_bool_iff in Hdue.
  destruct (Hr (0 + cursor (rng w))%nat) as [H0 H1].
  destruct (gap_range w H0 H1) as [Hlo _].
  unfold CONFIG.obstacle.minGap, CONFIG.obstacle.speed, Qdiv in *.
  change (/ 5) with (1 # 5) in Hdue.
  assert (H40 : inject_Z 40 < inject_Z (framesSinceLastSpawn w)).
  { change (inject_Z 40) with 40. lra. }
  rewrite <- Zlt_Qlt in H40. lia.
Qed.

Lemma stream_createParticles_loop (n : nat) (x0 y0 : Q)
    (l : list Particle.t) (g : Rng) :
  stream (snd (createParticles_loop n x0 y0 l g)) = stream g.
Proof.
  revert l g. induction n as [|k IH]; intros l g; cbn; [reflexivity|].
  rewrite IH. reflexivity.
Qed.

(** What a flip leaves alone. *)
Lemma flipGravity_frames (w : World) :
  gameState (Player_flipGravity w) = gameState w /\
  lastObstacleFrame (Player_flipGravity w) = lastObstacleFrame w /\
  stream (rng (Player_flipGravity w)) = stream (rng w).
Proof.
  unfold Player_flipGravity, createParticles. cbv zeta.
  match goal with
  | |- context [createParticles_loop ?n ?a ?b ?l ?g] =>
      pose proof (stream_createParticles_loop n a b l g) as Hs;
      destruct (createParticles_loop n a b l g) as [l' g']
  end.
  cbn in Hs. destruct (negb _); cbn; auto.
Qed.

Lemma beforeGenerate_frames (w : World) :
  gameState (beforeGenerate w) = gameState w /\
  lastObstacleFrame (beforeGenerate w) = lastObstacleFrame w /\
  rng (beforeGenerate w) = rng w.
Proof.
  unfold beforeGenerate. rewrite updateParticles_eq, updateObstacles_eq.
  repeat split.
Qed.

Lemma gameOver_frames (w : World) :
  lastObstacleFrame (gameOver w) = lastObstacleFrame w /\
  rng (gameOver w) = rng w /\
  obstacles (gameOver w) = obstacles w.
Proof.
  unfold gameOver. cbn. destruct (_ <? _)%Z; repeat split.
Qed.

Lemma checkCollisions_frames (w : World) :
  frame (gameState (checkCollisions w)) = frame (gameState w) /\
  lastObstacleFrame (checkCollisions w) = lastObstacleFrame w /\
  rng (checkCollisions w) = rng w /\
  obstacles (checkCollisions w) = obstacles w.
Proof.
  split; [apply frame_checkCollisions|].
  destruct (checkCollisions_cases w) as [E | E]; rewrite E.
  - repeat split.
  - apply gameOver_frames.
Qed.

(** What a running tick does to the two counters of the generator. *)
Lemma gameLoop_frames (w : World) :
  isRunning (gameState w) = true ->
  frame (gameState (gameLoop w)) = (frame (gameState w) + 1)%Z /\
  lastObstacleFrame (gameLoop w) =
    (if spawn_due (beforeGenerate w) then frame (gameState w)
     else lastObstacleFrame w) /\
  stream (rng (gameLoop w)) = stream (rng w).
Proof.
  intros H. rewrite (gameLoop_running w H). cbv zeta.
  unfold requestAnimationFrame_gameLoop, set_animationFrames, set_gameState,
    set_frame.
  cbn [gameState frame lastObstacleFrame rng].
  destruct (checkCollisions_frames (beforeCollisions w)) as (Ef & El & Er & _).
  rewrite Ef, El, Er. clear Ef El Er.
  destruct (beforeGenerate_frames w) as (Eg & Elast & Erng).
  rewrite gameState_beforeCollisions.
  unfold beforeCollisions, updateScore.
  cbn [lastObstacleFrame rng set_dom set_gameState set_score frame].
  rewrite generateObstacle_eq.
  destruct (spawn_due (beforeGenerate w));
    cbn [lastObstacleFrame rng set_rng set_lastObstacleFrame set_obstacles
         advance stream];
    rewrite ?Eg, ?Elast, ?Erng; repeat split.
Qed.

Lemma framesSinceLastSpawn_beforeGenerate (w : World) :
  framesSinceLastSpawn (beforeGenerate w) = framesSinceLastSpawn w.
Proof.
  destruct (beforeGenerate_frames w) as (Eg & El & _).
  unfold framesSinceLastSpawn. rewrite Eg, El. reflexivity.
Qed.

Lemma tick_spawn_41 (w : World) :
  Rng_in_range (rng w) -> spawn_due (beforeGenerate w) = true ->
  (41 <= frame (gameState w) - lastObstacleFrame w)%Z.
Proof.
  intros Hr Hdue. apply spawn_due_41 in Hdue.
  - rewrite framesSinceLastSpawn_beforeGenerate in Hdue. exact Hdue.
  - destruct (beforeGenerate_frames w) as (_ & _ & Er). rewrite Er. exact Hr.
Qed.

(** An event that does not tick leaves the counters of the generator. *)
Lemma dispatch_no_tick (e : Event) (w : World) :
  ticked e w = None ->
  gameState (dispatch e w) = gameState w /\
  lastObstacleFrame (dispatch e w) = lastObstacleFrame w /\
  stream (rng (dispatch e w)) = stream (rng w).
Proof.
  destruct e; cbn [ticked dispatch]; intros H; try discriminate H.
  - destruct (_ && _); [apply flipGravity_frames | repeat split].
  - destruct (isRunning _); [apply flipGravity_frames | repeat split].
  - destruct (animationFrames w); [repeat split | discriminate H].
Qed.

Lemma dispatch_tick (e : Event) (w w1 : World) :
  ticked e w = Some w1 -> dispatch e w = gameLoop w1.
Proof.
  destruct e; cbn [ticked dispatch]; try discriminate.
  - intros [= <-]. reflexivity.
  - intros [= <-]. reflexivity.
  - destruct (animationFrames w); [discriminate|]. intros [= <-]. reflexivity.
Qed.

(** The world on which an event of a run in progress ticks has the counters
    and the generator of the world of the event. *)
Lemma ticked_in_run (e : Event) (w w1 : World) :
  in_run e = true -> ticked e w = Some w1 ->
  gameState w1 = gameState w /\
  lastObstacleFrame w1 = lastObstacleFrame w /\
  rng w1 = rng w.
Proof.
  destruct e; cbn; try discriminate. intros _.
  destruct (animationFrames w); [discriminate|]. intros [= <-]. repeat split.
Qed.

Lemma ticked_start (e : Event) (w w1 : World) :
  in_run e = false -> ticked e w = Some w1 ->
  isRunning (gameState w1) = true /\
  frame (gameState w1) = 0%Z /\
  lastObstacleFrame w1 = 0%Z /\
  rng w1 = rng w.
Proof.
  destruct e; cbn; try discriminate; intros _ [= <-]; repeat split.
Qed.

Lemma tick_log_gaps (es : list Event) :
  forall w : World,
    forallb in_run es = true -> Rng_in_range (rng w) ->
    gaps_ok (lastObstacleFrame w) (spawn_frames (tick_log es w)).
Proof.
  induction es as [|e es IH]; intros w Hes Hr; [exact I|].
  cbn [forallb] in Hes. apply andb_true_iff in Hes as [He Hes].
  cbn [tick_log]. destruct (ticked e w) as [w1|] eqn:Et.
  - destruct (ticked_in_run e w w1 He Et) as (Eg & El & Er).
    rewrite (dispatch_tick e w w1 Et). rewrite <- El.
    assert (Hr1 : Rng_in_range (rng w1)) by (rewrite Er; exact Hr).
    unfold gameLoop_log. destruct (isRunning (gameState w1)) eqn:Erun.
    + destruct (gameLoop_frames w1 Erun) as (_ & Elast & Es).
      assert (Hr' : Rng_in_range (rng (gameLoop w1)))
        by (apply (Rng_in_range_stream (rng w1)); assumption).
      specialize (IH (gameLoop w1) Hes Hr'). rewrite Elast in IH.
      destruct (spawn_due (beforeGenerate w1)) eqn:Edue; cbn.
      * split; [apply tick_spawn_41; assumption | exact IH].
      * exact IH.
    + rewrite (gameLoop_not_running w1 Erun). cbn. apply IH; assumption.
  - destruct (dispatch_no_tick e w Et) as (_ & El & Es). cbn.
    rewrite <- El. apply IH; [exact Hes|].
    apply (Rng_in_range_stream (rng w)); assumption.
Qed.

Lemma tick_log_spaced (es : list Event) :
  forall (w : World) (q : nat),
    Rng_in_range (rng w) ->
    (framesSinceLastSpawn w - 1 <= Z.of_nat q)%Z ->
    spaced q (map snd (tick_log es w)).
Proof.
  induction es as [|e es IH]; intros w q Hr Hq; [exact I|].
  cbn [tick_log]. destruct (ticked e w) as [w1|] eqn:Et.
  - rewrite (dispatch_tick e w w1 Et).
    assert (Hw1 : Rng_in_range (rng w1) /\
                  (framesSinceLastSpawn w1 - 1 <= Z.of_nat q)%Z).
    { destruct (in_run e) eqn:He.
      - destruct (ticked_in_run e w w1 He Et) as (Eg & El & Er).
        unfold framesSinceLastSpawn in *. rewrite Er, Eg, El. split; assumption.
      - destruct (ticked_start e w w1 He Et) as (_ & Ef & El & Er).
        unfold framesSinceLastSpawn. rewrite Er, Ef, El.
        split; [assumption | lia]. }
    destruct Hw1 as [Hr1 Hq1].
    unfold gameLoop_log. destruct (isRunning (gameState w1)) eqn:Erun.
    + destruct (gameLoop_frames w1 Erun) as (Ef & Elast & Es).
      assert (Hr' : Rng_in_range (rng (gameLoop w1)))
        by (apply (Rng_in_range_stream (rng w1)); assumption).
      unfold framesSinceLastSpawn in Hq1.
      destruct (spawn_due (beforeGenerate w1)) eqn:Edue; cbn.
      * pose proof (tick_spawn_41 w1 Hr1 Edue) as H41.
        split; [lia|]. apply IH; [exact Hr'|].
        unfold framesSinceLastSpawn. rewrite Ef, Elast. lia.
      * apply IH; [exact Hr'|].
        unfold framesSinceLastSpawn. rewrite Ef, Elast. lia.
    + rewrite (gameLoop_not_running w1 Erun). cbn. apply IH; assumption.
  - destruct (dispatch_no_tick e w Et) as (Eg & El & Es). cbn.
    apply IH.
    + apply (Rng_in_range_stream (rng w)); assumption.
    + unfold framesSinceLastSpawn in *. rewrite Eg, El. exact Hq.
Qed.

Lemma spaced_apart (l : list bool) :
  forall q : nat, spaced q l -> quiet (40 - q) l /\ apart l.
Proof.
  induction l as [|b l IH]; intros q H.
  - split; [destruct (40 - q)%nat; exact I | exact I].
  - destruct b; cbn [spaced] in H.
    + destruct H as [Hq H]. destruct (IH 0%nat H) as [Hquiet Hap].
      replace (40 - q)%nat with 0%nat by lia.
      split; [exact I|]. split; [intros _; exact Hquiet | exact Hap].
    + destruct (IH (S q) H) as [Hquiet Hap]. split.
      * destruct (40 - q)%nat as [|k] eqn:Ek; [exact I|].
        replace (40 - S q)%nat with k in Hquiet by lia.
        split; [reflexivity | exact Hquiet].
      * split; [discriminate | exact Hap].
Qed.

Lemma generateObstacle_length (w : World) :
  (length (obstacles (generateObstacle w)) <= S (length (obstacles w)))%nat.
Proof.
  rewrite generateObstacle_eq. destruct (spawn_due w); cbn.
  - rewrite length_app. cbn. lia.
  - lia.
Qed.

Lemma gameLoop_length (w : World) :
  (length (obstacles (gameLoop w)) <= S (length (obstacles w)))%nat.
Proof.
  destruct (isRunning (gameState w)) eqn:Erun.
  - rewrite (gameLoop_running w Erun). cbv zeta.
    unfold requestAnimationFrame_gameLoop, set_animationFrames, set_gameState.
    cbn [obstacles].
    destruct (checkCollisions_frames (beforeCollisions w)) as (_ & _ & _ & Eo).
    rewrite Eo. unfold beforeCollisions, updateScore.
    cbn [obstacles set_dom set_gameState].
    etransitivity; [apply generateObstacle_length|].
    apply le_n_S. unfold beforeGenerate.
    rewrite updateParticles_eq, updateObstacles_eq.
    cbn [obstacles set_particles set_obstacles set_player].
    etransitivity; [apply List.filter_length_le|].
    rewrite length_map. lia.
  - rewrite (gameLoop_not_running w Erun). lia.
Qed.

Lemma tick_log_start (es : list Event) (w : World) :
  Rng_in_range (rng w) ->
  spawn_frames (tick_log (StartBtn_click :: es) w)
  = spawn_frames (tick_log es (startGame w)) /\
  lastObstacleFrame (startGame w) = 0%Z /\
  stream (rng (startGame w)) = stream (rng w).
Proof.
  intros Hr. cbn [tick_log ticked dispatch].
  change (startGame w) with (gameLoop (resetWorld w)).
  assert (Erun : isRunning (gameState (resetWorld w)) = true) by reflexivity.
  assert (Hdue : spawn_due (beforeGenerate (resetWorld w)) = false).
  { apply not_true_is_false. intros Hdue.
    apply tick_spawn_41 in Hdue; [|exact Hr]. cbn in Hdue. lia. }
  destruct (gameLoop_frames (resetWorld w) Erun) as (_ & El & Es).
  rewrite Hdue in El.
  unfold gameLoop_log. rewrite Erun, Hdue. cbn [app].
  split; [reflexivity|]. split; [exact El | exact Es].
Qed.



(** * Further properties of the script *)

(** ** The speed limit and the planes *)

Lemma limit_bound (v : Q) : Qabs (limit v) <= CONFIG.player.maxSpeed.
Proof.
  unfold limit, Math.sign, Math.abs, CONFIG.player.maxSpeed.
  destruct (Qlt_bool 8 (Qabs v)) eqn:E.
  - destruct (Qlt_bool 0 v); [discriminate|].
    destruct (Qlt_bool v 0); discriminate.
  - apply Qlt_bool_false_iff in E. exact E.
Qed.

(** X1.  Whatever the player was, after [update()] its speed is at most
    the configured maximum, 8, in either direction. *)
Theorem update_speed_limit (p : Player.t) :
  Qabs (Player.velocityY (Player.update p)) <= CONFIG.player.maxSpeed /\
  -8 <= Player.velocityY (Player.update p) /\
  Player.velocityY (Player.update p) <= 8.
Proof.
  assert (H : Qabs (Player.velocityY (Player.update p))
              <= CONFIG.player.maxSpeed).
  { unfold Player.update.
    fold (limit (Player.velocityY p + Player.gravity p)).
    pose proof (limit_bound (Player.velocityY p + Player.gravity p)) as Hl.
    cbv zeta. cbn [Player.velocityY].
    repeat match goal with
           | |- context [if ?b then _ else _] => destruct b
           end; try exact Hl; discriminate. }
  split; [exact H|]. apply Qabs_Qle_condition in H. exact H.
Qed.

(** X2.  A player that rests on the plane towards which gravity pulls, the
    floor for a positive gravity and the ceiling for a negative one, is
    left there by [update()], with velocity 0. *)
Theorem update_rest (p : Player.t) :
  Player.velocityY p == 0 ->
  (0 < Player.gravity p /\ Player.y p == Player.floorY p) \/
  (Player.gravity p < 0 /\ Player.y p == CONFIG.game.groundHeight) ->
  Player.y (Player.update p) == Player.y p /\
  Player.velocityY (Player.update p) == 0.
Proof.
  intros Hv Hrest. unfold Player.update.
  fold (limit (Player.velocityY p + Player.gravity p)).
  set (v := limit (Player.velocityY p + Player.gravity p)).
  cbv zeta. cbn [Player.y Player.velocityY].
  destruct Hrest as [[Hg Hy] | [Hg Hy]].
  - assert (Hpos : 0 < v) by (apply limit_pos; lra).
    assert (Hg1 : Qlt_bool 0 (Player.gravity p) = true)
      by (apply Qlt_bool_iff; exact Hg).
    assert (Hg2 : Qlt_bool (Player.gravity p) 0 = false)
      by (apply Qlt_bool_false_iff; lra).
    assert (Hhit : Qle_bool (Player.floorY p) (Player.y p + v) = true)
      by (apply Qle_bool_iff; lra).
    rewrite Hg1, Hg2, Hhit. cbn. split; [symmetry; exact Hy | reflexivity].
  - assert (Hneg : v < 0) by (apply limit_neg; lra).
    assert (Hg1 : Qlt_bool 0 (Player.gravity p) = false)
      by (apply Qlt_bool_false_iff; lra).
    assert (Hg2 : Qlt_bool (Player.gravity p) 0 = true)
      by (apply Qlt_bool_iff; exact Hg).
    assert (Hhit : Qle_bool (Player.y p + v) CONFIG.game.groundHeight = true)
      by (apply Qle_bool_iff; lra).
    rewrite Hg1, Hg2. cbn [andb]. rewrite Hhit.
    split; [symmetry; exact Hy | reflexivity].
Qed.

Lemma update_rest_witness :
  let p := Player.mk 30 30 150 320 0 (1 # 2) true 0 in
  (Player.velocityY p == 0 /\ 0 < Player.gravity p /\
   Player.y p == Player.floorY p) /\
  Player.y (Player.update p) == Player.y p /\
  Player.velocityY (Player.update p) == 0.
Proof.
  intros p.
  assert (Hv : Player.velocityY p == 0) by reflexivity.
  assert (Hg : 0 < Player.gravity p) by reflexivity.
  assert (Hy : Player.y p == Player.floorY p) by reflexivity.
  split; [repeat split; assumption|].
  apply (update_rest p Hv). left. split; assumption.
Defined.

(** ** Particles *)

Lemma createParticles_loop_burst (n : nat) (x0 y0 : Q) :
  forall (l : list Particle.t) (g : Rng),
    createParticles_loop n x0 y0 l g
    = (l ++ burst n x0 y0 g, advance (3 * n) g).
Proof.
  induction n as [|k IH]; intros l g.
  - cbn. rewrite app_nil_r. destruct g; reflexivity.
  - cbn [createParticles_loop burst].
    unfold Particle.new, Math.random. cbv beta iota zeta.
    cbn [fst snd stream cursor]. rewrite IH, <- app_assoc. cbn [app].
    unfold advance; cbn [stream cursor].
    apply f_equal2; [reflexivity|]. apply f_equal. lia.
Qed.

Lemma burst_length (n : nat) (x0 y0 : Q) (g : Rng) :
  length (burst n x0 y0 g) = n.
Proof.
  revert g. induction n as [|k IH]; intros g; cbn; [reflexivity|].
  rewrite IH. reflexivity.
Qed.

Lemma burst_fresh (n : nat) (x0 y0 : Q) (g : Rng) :
  Forall (fresh_particle x0 y0) (burst n x0 y0 g).
Proof.
  revert g. induction n as [|k IH]; intros g; cbn; constructor.
  - repeat split.
  - apply IH.
Qed.

Lemma burst_in_range (n : nat) (x0 y0 : Q) (g : Rng) :
  Rng_in_range g -> Forall particle_in_range (burst n x0 y0 g).
Proof.
  revert g. induction n as [|k IH]; intros g Hg; cbn; constructor.
  - unfold particle_in_range; cbn.
    destruct (Hg (cursor g)) as [A1 A2].
    destruct (Hg (S (cursor g))) as [B1 B2].
    destruct (Hg (S (S (cursor g)))) as [C1 C2].
    repeat split; lra.
  - apply IH. intros m. apply Hg.
Qed.



(** X4.  The particle update of a tick moves every particle once, takes
    its decay off its life, and keeps, in their order, exactly those whose
    life is then still positive. *)
Theorem updateParticles_removes_dead (w : World) (q : Particle.t) :
  List.In q (particles w) ->
  let l' := particles (updateParticles w) in
  let q' := Particle.update q in
  l' = List.filter (fun a => negb (Particle.isDead a))
                   (map Particle.update (particles w)) /\
  (Particle.x q' = Particle.x q + Particle.vx q /\
   Particle.y q' = Particle.y q + Particle.vy q /\
   Particle.life q' = Particle.life q - Particle.decay q) /\
  (~ List.In q' l' <-> Particle.life q - Particle.decay q <= 0) /\
  (0 < Particle.life q - Particle.decay q -> List.In q' l').
Proof.
  intros Hin l' q'. subst l'. rewrite updateParticles_eq.
  cbn [particles set_particles].
  split; [reflexivity|]. split; [repeat split|].
  assert (Hmap : List.In q' (map Particle.update (particles w)))
    by (apply List.in_map, Hin).
  assert (Hdead : Particle.isDead q' = true
                  <-> Particle.life q - Particle.decay q <= 0)
    by apply Qle_bool_iff.
  split; [split|].
  - intros Hnot. apply Hdead.
    destruct (Particle.isDead q') eqn:E; [reflexivity|].
    exfalso. apply Hnot, List.filter_In. rewrite E.
    split; [exact Hmap | reflexivity].
  - intros Hle Hin'. apply List.filter_In in Hin' as [_ Hk].
    apply Hdead in Hle. rewrite Hle in Hk. discriminate.
  - intros Hpos. apply List.filter_In. split; [exact Hmap|].
    apply negb_true_iff, not_true_is_false. intros E.
    apply Hdead in E. lra.
Qed.

Lemma updateParticles_removes_dead_witness :
  let old := Particle.mk 10 10 1 1 (1 # 50) (1 # 50) 3 in
  let young := Particle.mk 10 10 1 1 (1 # 25) (1 # 50) 3 in
  let w := set_particles (initialWorld ∅ 0 startPage (mkRng (fun _ => 0) 0))
                         [old; young] in
  List.In old (particles w) /\
  particles (updateParticles w) = [Particle.update young].
Proof.
  intros old young w.
  assert (Hin : List.In old (particles w)) by (left; reflexivity).
  split; [exact Hin|].
  destruct (updateParticles_removes_dead w old Hin) as (E & _).
  rewrite E. reflexivity.
Defined.

Lemma Particle_iter_update (k : nat) (q : Particle.t) :
  Particle.life (Nat.iter k Particle.update q)
  == Particle.life q - inject_Z (Z.of_nat k) * Particle.decay q /\
  Particle.decay (Nat.iter k Particle.update q) = Particle.decay q.
Proof.
  induction k as [|k [IHl IHd]].
  - cbn [Nat.iter nat_rect]. split; [|reflexivity].
    change (inject_Z (Z.of_nat 0)) with 0. lra.
  - cbn [Nat.iter nat_rect Particle.update Particle.life Particle.decay].
    fold (Nat.iter k Particle.update q).
    split; [|exact IHd]. rewrite IHl, IHd.
    rewrite Nat2Z.inj_succ. unfold Z.succ. rewrite inject_Z_plus.
    change (inject_Z 1) with 1. lra.
Qed.

(** X5.  A particle lives 50 updates: from its construction on, it is dead
    after [k] updates if and only if [k] is at least 50; so the particle
    update of the 50th tick after a flip removes the burst of that flip. *)
Theorem particle_lifetime (x0 y0 : Q) (g : Rng) (k : nat) :
  let q := fst (Particle.new x0 y0 g) in
  Particle.isDead (Nat.iter k Particle.update q) = true <-> (50 <= k)%nat.
Proof.
  intros q. unfold Particle.isDead. rewrite Qle_bool_iff.
  destruct (Particle_iter_update k q) as [El _]. rewrite El.
  change (Particle.life q) with 1. change (Particle.decay q) with (1 # 50).
  split.
  - intros H.
    assert (H50 : inject_Z 50 <= inject_Z (Z.of_nat k))
      by (change (inject_Z 50) with 50; lra).
    rewrite <- Zle_Qle in H50. lia.
  - intros H.
    assert (H50 : inject_Z 50 <= inject_Z (Z.of_nat k))
      by (rewrite <- Zle_Qle; lia).
    change (inject_Z 50) with 50 in H50. lra.
Qed.

(** ** The collision check and the end of the run *)

Lemma checkCollisions_loop_existsb (l : list Obstacle.t) (w : World) :
  checkCollisions_loop l w =
  if existsb (fun o => Obstacle.collidesWith o (player w)) l
  then gameOver w else w.
Proof.
  induction l as [|o l IH]; cbn; [reflexivity|].
  destruct (Obstacle.collidesWith o (player w)); [reflexivity | exact IH].
Qed.

Lemma isRunning_beforeCollisions (w : World) :
  isRunning (gameState (beforeCollisions w)) = isRunning (gameState w).
Proof. rewrite gameState_beforeCollisions. reflexivity. Qed.

(** X6.  [checkCollisions] calls [gameOver] once if some obstacle of the
    collection overlaps the player, however many do, and changes nothing
    otherwise.  So a tick that starts running ends the run if and only if,
    once the player and the obstacles have moved, some obstacle overlaps
    the player. *)
Theorem checkCollisions_crash (w : World) :
  checkCollisions w = (if crashes w then gameOver w else w) /\
  (isRunning (gameState w) = true ->
   isRunning (gameState (gameLoop w)) = negb (crashes (beforeCollisions w))).
Proof.
  assert (E : forall v : World,
             checkCollisions v = if crashes v then gameOver v else v)
    by (intros v; apply checkCollisions_loop_existsb).
  split; [apply E|].
  intros Hrun. rewrite (gameLoop_running w Hrun). cbv zeta.
  unfold requestAnimationFrame_gameLoop, set_animationFrames, set_gameState,
    set_frame.
  cbn [gameState isRunning]. rewrite E.
  destruct (crashes (beforeCollisions w)).
  - rewrite gameOver_gameState. reflexivity.
  - rewrite isRunning_beforeCollisions. exact Hrun.
Qed.

Lemma checkCollisions_crash_witness :
  isRunning (gameState crashWorld) = true /\
  crashes (beforeCollisions crashWorld) = true /\
  isRunning (gameState (gameLoop crashWorld)) = false.
Proof.
  assert (Hrun : isRunning (gameState crashWorld) = true) by reflexivity.
  assert (Hc : crashes (beforeCollisions crashWorld) = true)
    by (vm_compute; reflexivity).
  split; [exact Hrun|]. split; [exact Hc|].
  destruct (checkCollisions_crash crashWorld) as [_ H].
  rewrite (H Hrun), Hc. reflexivity.
Defined.

(** ** Starting a run *)

Lemma spawn_due_at_reset (w : World) :
  Rng_in_range (rng w) -> spawn_due (beforeGenerate (resetWorld w)) = false.
Proof.
  intros Hr. apply not_true_is_false. intros Hdue.
  apply tick_spawn_41 in Hdue; [|exact Hr]. cbn in Hdue. lia.
Qed.

Lemma first_update (p : Player.t) :
  Player.height p == CONFIG.player.size ->
  Player.y (Player.update (Player.reset p)) == 50 + (1 # 2) /\
  Player.velocityY (Player.update (Player.reset p)) == 1 # 2 /\
  Player.gravity (Player.update (Player.reset p)) = CONFIG.player.gravity.
Proof.
  intros Hh. unfold Player.update, Player.floorY.
  cbn [Player.reset Player.y Player.velocityY Player.gravity Player.height].
  change (Qlt_bool 0 CONFIG.player.gravity) with true.
  change (Qlt_bool CONFIG.player.gravity 0) with false.
  change (Qlt_bool CONFIG.player.maxSpeed
            (Math.abs (0 + CONFIG.player.gravity))) with false.
  cbv iota zeta. cbn [andb].
  assert (Hno : Qle_bool (canvas.height - CONFIG.game.groundHeight
                          - Player.height p)
                         (CONFIG.game.groundHeight
                          + (0 + CONFIG.player.gravity)) = false).
  { apply Qle_bool_false_iff. rewrite Hh. reflexivity. }
  rewrite Hno. repeat split; reflexivity.
Qed.

(** X7.  [startGame] does not only reset the run, it also runs its first
    tick: for draws in [[0, 1)] and a player of the configured size,
    whatever else the world was, the game is then
    running with score 1, at frame 1, without obstacles or particles, the
    player has fallen by 0.5 from the ceiling plane with velocity 0.5, and
    one more animation frame is queued; the best score and the storage are
    untouched. *)
Theorem startGame_first_tick (w : World) :
  Rng_in_range (rng w) ->
  Player.height (player w) == CONFIG.player.size ->
  let w' := startGame w in
  isRunning (gameState w') = true /\
  score (gameState w') == 1 /\
  frame (gameState w') = 1%Z /\
  obstacles w' = [] /\ particles w' = [] /\
  lastObstacleFrame w' = 0%Z /\
  Player.y (player w') == 50 + (1 # 2) /\
  Player.velocityY (player w') == 1 # 2 /\
  Player.gravity (player w') = CONFIG.player.gravity /\
  animationFrames w' = S (animationFrames w) /\
  highScore (gameState w') = highScore (gameState w) /\
  localStorage w' = localStorage w.
Proof.
  intros Hr Hh w'. subst w'.
  destruct (first_update (player w) Hh) as (Hy & Hv & Hg).
  change (startGame w) with (gameLoop (resetWorld w)).
  assert (Erun : isRunning (gameState (resetWorld w)) = true) by reflexivity.
  pose proof (spawn_due_at_reset w Hr) as Hdue.
  rewrite (gameLoop_running _ Erun). cbv zeta.
  set (v := beforeGenerate (resetWorld w)) in *.
  assert (Ebc : beforeCollisions (resetWorld w)
                = updateScore (set_rng v (advance 1 (rng v)))).
  { unfold beforeCollisions. fold v.
    rewrite generateObstacle_eq, Hdue. reflexivity. }
  assert (Ebg : v = set_player (resetWorld w)
                               (Player.update (player (resetWorld w)))).
  { unfold v, beforeGenerate.
    rewrite updateParticles_eq, updateObstacles_eq. reflexivity. }
  assert (Ecc : checkCollisions (beforeCollisions (resetWorld w))
                = beforeCollisions (resetWorld w)).
  { unfold checkCollisions. rewrite Ebc, Ebg. reflexivity. }
  rewrite Ecc, Ebc, Ebg.
  repeat split; try reflexivity; assumption.
Qed.

Lemma startGame_first_tick_witness :
  let w := crashWorld in
  Rng_in_range (rng w) /\
  Player.height (player w) == CONFIG.player.size /\
  score (gameState (startGame w)) == 1 /\
  frame (gameState (startGame w)) = 1%Z /\
  obstacles (startGame w) = [].
Proof.
  intros w.
  assert (Hr : Rng_in_range (rng w)).
  { intros n. split; [discriminate | reflexivity]. }
  assert (Hh : Player.height (player w) == CONFIG.player.size)
    by reflexivity.
  split; [exact Hr|]. split; [exact Hh|].
  destruct (startGame_first_tick w Hr Hh) as (_ & Hs & Hf & Ho & _).
  split; [exact Hs|]. split; [exact Hf | exact Ho].
Defined.

(** ** What holds all along *)

(** X8.  While the game is not running, a key press or a click on the
    canvas changes nothing, and an animation frame at most leaves the
    queue: only a click on the start or the restart button changes the
    world again. *)
Theorem stopped_world_is_frozen (e : Event) (w : World) :
  isRunning (gameState w) = false -> in_run e = true ->
  dispatch e w = w \/
  (exists n : nat,
     animationFrames w = S n /\ dispatch e w = set_animationFrames w n).
Proof.
  intros Hstop He. destruct e; try discriminate He; cbn [dispatch].
  - left. rewrite Hstop, andb_false_r. reflexivity.
  - left. rewrite Hstop. reflexivity.
  - destruct (animationFrames w) as [|n] eqn:En; [left; reflexivity|].
    right. exists n. split; [reflexivity|].
    apply gameLoop_not_running. exact Hstop.
Qed.

Lemma stopped_world_is_frozen_witness :
  let w := gameLoop crashWorld in
  (isRunning (gameState w) = false /\ in_run AnimationFrame = true) /\
  dispatch AnimationFrame w = set_animationFrames w 0 /\
  dispatch Canvas_click w = w /\
  dispatch (Keydown "Space") w = w.
Proof.
  intros w.
  assert (Hstop : isRunning (gameState w) = false)
    by (vm_compute; reflexivity).
  split; [split; [exact Hstop | reflexivity]|].
  assert (Hq : animationFrames w = 1%nat) by (vm_compute; reflexivity).
  split; [|split].
  - destruct (stopped_world_is_frozen AnimationFrame w Hstop eq_refl)
      as [E | (n & En & E)].
    + clear E. cbn [dispatch]. rewrite Hq.
      apply gameLoop_not_running, Hstop.
    + rewrite E. rewrite Hq in En. injection En as <-. reflexivity.
  - destruct (stopped_world_is_frozen Canvas_click w Hstop eq_refl)
      as [E | (n & En & E)]; [exact E|].
    cbn [dispatch]. rewrite Hstop. reflexivity.
  - destruct (stopped_world_is_frozen (Keydown "Space") w Hstop eq_refl)
      as [E | (n & En & E)]; [exact E|].
    cbn [dispatch]. rewrite Hstop, andb_false_r. reflexivity.
Defined.

Lemma flipGravity_rest (w : World) :
  animationFrames (Player_flipGravity w) = animationFrames w /\
  localStorage (Player_flipGravity w) = localStorage w /\
  highScoreEl (dom (Player_flipGravity w)) = highScoreEl (dom w) /\
  obstacles (Player_flipGravity w) = obstacles w.
Proof.
  unfold Player_flipGravity, createParticles. cbv zeta.
  destruct (createParticles_loop _ _ _ _ _) as [l g].
  destruct (negb _); repeat split.
Qed.

Lemma isRunning_flipGravity (w : World) :
  isRunning (gameState (Player_flipGravity w)) = isRunning (gameState w).
Proof. destruct (flipGravity_frames w) as (E & _). rewrite E. reflexivity. Qed.

Lemma animationFrames_gameLoop_le (w : World) :
  isRunning (gameState (gameLoop w)) = true ->
  (1 <= animationFrames (gameLoop w))%nat.
Proof.
  intros H. destruct (isRunning (gameState w)) eqn:E.
  - rewrite (animationFrames_gameLoop w E). lia.
  - rewrite (gameLoop_not_running w E) in H. congruence.
Qed.

(** X9.  The loop cannot stall: after any sequence of events since the
    page was loaded, if the game is running then an animation frame is
    queued. *)
Theorem running_has_frame_queued (storage : gmap string string) (best : Z)
    (page : Dom) (g : Rng) (es : list Event) :
  let w := run es (initialWorld storage best page g) in
  isRunning (gameState w) = true -> (1 <= animationFrames w)%nat.
Proof.
  cbv zeta.
  assert (Hstep : forall (e : Event) (w : World),
            (isRunning (gameState w) = true ->
             (1 <= animationFrames w)%nat) ->
            isRunning (gameState (dispatch e w)) = true ->
            (1 <= animationFrames (dispatch e w))%nat).
  { intros e w Hw. destruct e; cbn [dispatch].
    - apply animationFrames_gameLoop_le.
    - apply animationFrames_gameLoop_le.
    - destruct (_ && _); [|exact Hw].
      rewrite isRunning_flipGravity.
      destruct (flipGravity_rest w) as (Ea & _). rewrite Ea. exact Hw.
    - destruct (isRunning (gameState w)) eqn:E; [|congruence].
      destruct (flipGravity_rest w) as (Ea & _). rewrite Ea.
      intros _. apply Hw. reflexivity.
    - destruct (animationFrames w) eqn:En;
        [intros H; rewrite En; exact (Hw H)|].
      apply animationFrames_gameLoop_le. }
  assert (Hrun : forall w0 : World,
            (isRunning (gameState w0) = true ->
             (1 <= animationFrames w0)%nat) ->
            isRunning (gameState (run es w0)) = true ->
            (1 <= animationFrames (run es w0))%nat).
  { induction es as [|e es IH]; intros w0 H0; [exact H0|].
    cbn. apply IH, Hstep, H0. }
  apply Hrun. cbn. discriminate.
Qed.

Lemma running_has_frame_queued_witness :
  let w := run [StartBtn_click; AnimationFrame; Canvas_click]
               (initialWorld ∅ 0 startPage (mkRng (fun _ => 0) 0)) in
  isRunning (gameState w) = true /\ (1 <= animationFrames w)%nat.
Proof.
  intros w.
  assert (Hrun : isRunning (gameState w) = true) by (vm_compute; reflexivity).
  split; [exact Hrun|].
  exact (running_has_frame_queued ∅ 0 startPage (mkRng (fun _ => 0) 0)
           [StartBtn_click; AnimationFrame; Canvas_click] Hrun).
Defined.

(** ** The best score *)

Lemma best_view_gameOver (w : World) :
  best_view (gameOver w) =
  let finalScore := Math.floor (score (gameState w)) in
  if (highScore (gameState w) <? finalScore)%Z
  then (finalScore,
        <[ highScoreKey := Number_toString finalScore ]> (localStorage w),
        Number_toString finalScore)
  else best_view w.
Proof.
  unfold best_view, gameOver. cbv zeta. world_simpl.
  destruct (_ <? _)%Z; reflexivity.
Qed.

Lemma best_view_beforeCollisions (w : World) :
  best_view (beforeCollisions w) = best_view w.
Proof.
  unfold best_view, beforeCollisions, updateScore, beforeGenerate.
  rewrite generateObstacle_eq, updateParticles_eq, updateObstacles_eq.
  destruct (spawn_due _); reflexivity.
Qed.

Lemma best_view_next_frame (w : World) :
  best_view
    (requestAnimationFrame_gameLoop
       (set_gameState w (set_frame (gameState w)
                                   (frame (gameState w) + 1)%Z)))
  = best_view w.
Proof. reflexivity. Qed.

Lemma best_view_gameLoop (w : World) :
  best_view (gameLoop w) = best_view w \/
  best_view (gameLoop w) = best_view (gameOver (beforeCollisions w)).
Proof.
  destruct (isRunning (gameState w)) eqn:Erun.
  - rewrite (gameLoop_running w Erun). cbv zeta.
    rewrite best_view_next_frame.
    destruct (checkCollisions_cases (beforeCollisions w)) as [E | E];
      rewrite E; [left | right].
    + apply best_view_beforeCollisions.
    + reflexivity.
  - left. rewrite (gameLoop_not_running w Erun). reflexivity.
Qed.

Lemma best_view_flipGravity (w : World) :
  best_view (Player_flipGravity w) = best_view w.
Proof.
  unfold best_view.
  destruct (flipGravity_frames w) as (Eg & _).
  destruct (flipGravity_rest w) as (_ & Es & Ed & _).
  rewrite Eg, Es, Ed. reflexivity.
Qed.

Lemma best_kept_gameOver (best0 : Z) (storage0 : gmap string string)
    (w : World) :
  best_kept best0 storage0 (best_view w) ->
  best_kept best0 storage0 (best_view (gameOver w)).
Proof.
  intros H. rewrite best_view_gameOver. cbv zeta.
  destruct (_ <? _)%Z eqn:E; [|exact H].
  apply Z.ltb_lt in E. unfold best_view, best_kept in *.
  destruct H as (_ & Hle & _).
  split; [reflexivity|]. split; [lia|]. right. apply lookup_insert_eq.
Qed.

Lemma best_kept_dispatch (best0 : Z) (storage0 : gmap string string)
    (e : Event) (w : World) :
  best_kept best0 storage0 (best_view w) ->
  best_kept best0 storage0 (best_view (dispatch e w)).
Proof.
  intros H.
  assert (Hloop : forall v : World,
            best_view v = best_view w ->
            best_kept best0 storage0 (best_view (gameLoop v))).
  { intros v Ev. destruct (best_view_gameLoop v) as [E | E]; rewrite E.
    - rewrite Ev. exact H.
    - apply best_kept_gameOver.
      rewrite best_view_beforeCollisions, Ev. exact H. }
  destruct e; cbn [dispatch].
  - apply Hloop. reflexivity.
  - apply Hloop. reflexivity.
  - destruct (_ && _); [rewrite best_view_flipGravity|]; exact H.
  - destruct (isRunning _); [rewrite best_view_flipGravity|]; exact H.
  - destruct (animationFrames w); [exact H|]. apply Hloop. reflexivity.
Qed.

(** X10.  After any sequence of events since the page was loaded with the
    best score [best], the page shows the best score, the best score is
    at least [best], and the storage holds the best score under its key as
    soon as the best score has changed (before that, the storage is the
    one the page was loaded with). *)
Theorem best_score_kept (storage : gmap string string) (best : Z)
    (page : Dom) (g : Rng) (es : list Event) :
  let w := run es (initialWorld storage best page g) in
  highScoreEl (dom w) = Number_toString (highScore (gameState w)) /\
  (best <= highScore (gameState w))%Z /\
  ((highScore (gameState w) = best /\ localStorage w = storage) \/
   localStorage w !! "gravityRunnerHighScore"
   = Some (Number_toString (highScore (gameState w)))).
Proof.
  cbv zeta.
  assert (Hrun : forall w0 : World,
            best_kept best storage (best_view w0) ->
            best_kept best storage (best_view (run es w0))).
  { induction es as [|e es IH]; intros w0 H0; [exact H0|].
    cbn. apply IH, best_kept_dispatch, H0. }
  apply (Hrun (initialWorld storage best page g)).
  unfold best_kept, best_view; cbn.
  split; [reflexivity|]. split; [lia|]. left. split; reflexivity.
Qed.

(** ** The score and the frame counter *)

Lemma gameState_flip_or_tick (w : World) :
  isRunning (gameState w) = true ->
  score (gameState (gameLoop w))
  = score (gameState w) + CONFIG.game.scoreMultiplier /\
  frame (gameState (gameLoop w)) = (frame (gameState w) + 1)%Z.
Proof.
  intros H. split; [|apply (gameLoop_frames w H)].
  rewrite (gameLoop_running w H). cbv zeta.
  unfold requestAnimationFrame_gameLoop, set_animationFrames,
    set_gameState, set_frame.
  cbn [gameState score].
  rewrite score_checkCollisions, gameState_beforeCollisions. reflexivity.
Qed.

Lemma score_is_frame_gameLoop (w : World) :
  score (gameState w) == inject_Z (frame (gameState w)) ->
  score (gameState (gameLoop w)) == inject_Z (frame (gameState (gameLoop w))).
Proof.
  intros H. destruct (isRunning (gameState w)) eqn:Erun.
  - destruct (gameState_flip_or_tick w Erun) as [Es Ef]. rewrite Es, Ef.
    rewrite inject_Z_plus, H. reflexivity.
  - rewrite (gameLoop_not_running w Erun). exact H.
Qed.

(** X11.  The score counts the ticks of the run: after any sequence of
    events since the page was loaded, the score equals the frame counter,
    so it is an integer and [Math.floor] leaves it as it is. *)
Theorem score_is_frame (storage : gmap string string) (best : Z)
    (page : Dom) (g : Rng) (es : list Event) :
  let w := run es (initialWorld storage best page g) in
  score (gameState w) == inject_Z (frame (gameState w)) /\
  Math.floor (score (gameState w)) = frame (gameState w).
Proof.
  cbv zeta.
  assert (Hstep : forall (e : Event) (w : World),
            score (gameState w) == inject_Z (frame (gameState w)) ->
            score (gameState (dispatch e w))
            == inject_Z (frame (gameState (dispatch e w)))).
  { intros e w H. destruct e; cbn [dispatch].
    - apply (score_is_frame_gameLoop (resetWorld w)). reflexivity.
    - apply (score_is_frame_gameLoop
               (resetWorld
                  (set_dom w (set_gameOverScreen_hidden (dom w) true)))).
      reflexivity.
    - destruct (_ && _); [|exact H].
      destruct (flipGravity_frames w) as (E & _). rewrite E. exact H.
    - destruct (isRunning _); [|exact H].
      destruct (flipGravity_frames w) as (E & _). rewrite E. exact H.
    - destruct (animationFrames w); [exact H|].
      apply score_is_frame_gameLoop. exact H. }
  assert (Hrun : forall w0 : World,
            score (gameState w0) == inject_Z (frame (gameState w0)) ->
            score (gameState (run es w0))
            == inject_Z (frame (gameState (run es w0)))).
  { induction es as [|e es IH]; intros w0 H0; [exact H0|].
    cbn. apply IH, Hstep, H0. }
  set (w0 := initialWorld storage best page g).
  assert (H : score (gameState (run es w0))
              == inject_Z (frame (gameState (run es w0))))
    by (apply Hrun; reflexivity).
  split; [exact H|]. unfold Math.floor. rewrite H. apply Qfloor_Z.
Qed.

(** ** The on-ground flag *)

Lemma isOnGround_update (p : Player.t) :
  Player.isOnGround p = true -> Player.isOnGround (Player.update p) = true.
Proof.
  intros H. unfold Player.update. cbv zeta. cbn [Player.isOnGround].
  rewrite H.
  repeat match goal with
         | |- context [if ?b then _ else _] => destruct b
         end; reflexivity.
Qed.

Lemma isOnGround_dispatch (e : Event) (w : World) :
  Player.isOnGround (player w) = true ->
  Player.isOnGround (player (dispatch e w)) = true.
Proof.
  intros H.
  assert (Hloop : forall v : World,
            Player.isOnGround (player v) = true ->
            Player.isOnGround (player (gameLoop v)) = true).
  { intros v Hv. rewrite player_gameLoop.
    destruct (isRunning _); [apply isOnGround_update|]; exact Hv. }
  destruct e; cbn [dispatch].
  - apply Hloop. exact H.
  - apply Hloop. exact H.
  - destruct (_ && _); [rewrite player_flipGravity|]; exact H.
  - destruct (isRunning _); [rewrite player_flipGravity|]; exact H.
  - destruct (animationFrames w); [exact H|]. apply Hloop. exact H.
Qed.

(** X12.  Nothing ever clears the on-ground flag: after any sequence of
    events since the page was loaded it is set, and it is set also when
    the player is in mid-air, strictly between the two planes, as right
    after the start of a run. *)
Theorem isOnGround_always_set (storage : gmap string string) (best : Z)
    (page : Dom) (g : Rng) (es : list Event) :
  let w0 := initialWorld storage best page g in
  Player.isOnGround (player (run es w0)) = true /\
  (let p := player (run [StartBtn_click] w0) in
   ceilingPlane < Player.y p /\ Player.y p < floorPlane - Player.height p /\
   Player.isOnGround p = true).
Proof.
  cbv zeta.
  assert (Hrun : forall (l : list Event) (w : World),
            Player.isOnGround (player w) = true ->
            Player.isOnGround (player (run l w)) = true).
  { induction l as [|e l IH]; intros w H; [exact H|].
    cbn. apply IH, isOnGround_dispatch, H. }
  split; [apply Hrun; reflexivity|].
  split; [|split; [|apply Hrun; reflexivity]].
  - cbn [run fold_left dispatch].
    change (startGame (initialWorld storage best page g))
      with (gameLoop (resetWorld (initialWorld storage best page g))).
    rewrite player_gameLoop. reflexivity.
  - cbn [run fold_left dispatch].
    change (startGame (initialWorld storage best page g))
      with (gameLoop (resetWorld (initialWorld storage best page g))).
    rewrite player_gameLoop. reflexivity.
Qed.

(** ** The life of an obstacle *)

Lemma triangle_double (k : nat) :
  (2 * triangle k = Z.of_nat k * (Z.of_nat k - 1))%Z.
Proof.
  induction k as [|j IH]; [reflexivity|].
  cbn [triangle]. rewrite Nat2Z.inj_succ. lia.
Qed.

Lemma triangle_mono (j k : nat) :
  (j <= k)%nat -> (triangle j <= triangle k)%Z.
Proof.
  induction 1 as [|k _ IH]; [lia|]. cbn [triangle]. lia.
Qed.

Lemma aged_spawned (w : World) : aged 0 (spawned w).
Proof. unfold aged, spawned; cbn. repeat split; reflexivity. Qed.

Lemma aged_update (a : nat) (o : Obstacle.t) :
  aged a o -> aged (S a) (Obstacle.update o).
Proof.
  intros (Hw & Hs & Hx). unfold aged.
  cbn [Obstacle.update Obstacle.width Obstacle.speed Obstacle.x triangle].
  rewrite Nat2Z.inj_succ. unfold Z.succ. rewrite !inject_Z_plus.
  change (inject_Z 1) with 1.
  unfold CONFIG.obstacle.width, CONFIG.obstacle.speed,
    CONFIG.obstacle.speedIncrease, canvas.width, CONFIG.canvas.width in *.
  repeat split; lra.
Qed.

Lemma aged_iter (k : nat) (o : Obstacle.t) :
  aged 0 o -> aged k (Nat.iter k Obstacle.update o).
Proof.
  intros H. induction k as [|k IH]; [exact H|].
  cbn [Nat.iter nat_rect]. fold (Nat.iter k Obstacle.update o).
  apply aged_update, IH.
Qed.

Lemma aged_isOffScreen (a : nat) (o : Obstacle.t) :
  aged a o -> (Obstacle.isOffScreen o = true <-> (167 <= a)%nat).
Proof.
  intros (Hw & _ & Hx). unfold Obstacle.isOffScreen.
  rewrite Qlt_bool_iff.
  unfold CONFIG.obstacle.width, CONFIG.obstacle.speed,
    CONFIG.obstacle.speedIncrease, canvas.width, CONFIG.canvas.width in *.
  split.
  - intros Hoff. apply Nat.nlt_ge. intros Hlt.
    assert (Ha : inject_Z (Z.of_nat a) <= inject_Z 166)
      by (rewrite <- Zle_Qle; lia).
    assert (Ht : inject_Z (triangle a) <= inject_Z (triangle 166))
      by (rewrite <- Zle_Qle; apply triangle_mono; lia).
    change (inject_Z 166) with 166 in Ha.
    change (inject_Z (triangle 166)) with 13695 in Ht. lra.
  - intros Hge.
    assert (Ha : inject_Z 167 <= inject_Z (Z.of_nat a))
      by (rewrite <- Zle_Qle; lia).
    assert (Ht : inject_Z (triangle 167) <= inject_Z (triangle a))
      by (rewrite <- Zle_Qle; apply triangle_mono; lia).
    change (inject_Z 167) with 167 in Ha.
    change (inject_Z (triangle 167)) with 13861 in Ht. lra.
Qed.


(** ** Room for the player *)

Lemma iter_update_shape (k : nat) (o : Obstacle.t) :
  Obstacle.height (Nat.iter k Obstacle.update o) = Obstacle.height o /\
  Obstacle.y (Nat.iter k Obstacle.update o) = Obstacle.y o /\
  Obstacle.isTop (Nat.iter k Obstacle.update o) = Obstacle.isTop o.
Proof.
  induction k as [|k IH]; [repeat split|].
  cbn [Nat.iter nat_rect]. fold (Nat.iter k Obstacle.update o).
  exact IH.
Qed.



(** ** The generator during play *)

Lemma stream_dispatch (e : Event) (w : World) :
  stream (rng (dispatch e w)) = stream (rng w).
Proof.
  assert (Hloop : forall v : World,
            stream (rng (gameLoop v)) = stream (rng v)).
  { intros v. destruct (isRunning (gameState v)) eqn:E.
    - apply (gameLoop_frames v E).
    - rewrite (gameLoop_not_running v E). reflexivity. }
  destruct e; cbn [dispatch].
  - exact (Hloop (resetWorld w)).
  - exact (Hloop (resetWorld
                    (set_dom w (set_gameOverScreen_hidden (dom w) true)))).
  - destruct (_ && _); [apply flipGravity_frames | reflexivity].
  - destruct (isRunning _); [apply flipGravity_frames | reflexivity].
  - destruct (animationFrames w) as [|n]; [reflexivity|].
    exact (Hloop (set_animationFrames w n)).
Qed.

Lemma spawn_due_70 (w : World) :
  Rng_in_range (rng w) -> (70 <= framesSinceLastSpawn w)%Z ->
  spawn_due w = true.
Proof.
  intros Hr Hd. apply Qlt_bool_iff.
  destruct (Hr (0 + cursor (rng w))%nat) as [H0 H1].
  destruct (gap_range w H0 H1) as [_ Hhi].
  unfold CONFIG.obstacle.maxGap, CONFIG.obstacle.speed, Qdiv in *.
  change (/ 5) with (1 # 5).
  assert (H70 : inject_Z 70 <= inject_Z (framesSinceLastSpawn w))
    by (rewrite <- Zle_Qle; exact Hd).
  change (inject_Z 70) with 70 in H70. lra.
Qed.

(** The frames since the last spawn, after a tick. *)
Lemma framesSinceLastSpawn_gameLoop (w : World) :
  isRunning (gameState w) = true ->
  framesSinceLastSpawn (gameLoop w) =
  if spawn_due (beforeGenerate w) then 1%Z
  else (framesSinceLastSpawn w + 1)%Z.
Proof.
  intros H. destruct (gameLoop_frames w H) as (Ef & El & _).
  unfold framesSinceLastSpawn. rewrite Ef, El.
  destruct (spawn_due _); lia.
Qed.

Lemma waiting_gameLoop (w : World) :
  Rng_in_range (rng w) ->
  (0 <= framesSinceLastSpawn w <= 70)%Z ->
  (0 <= framesSinceLastSpawn (gameLoop w) <= 70)%Z.
Proof.
  intros Hr Hd. destruct (isRunning (gameState w)) eqn:E.
  - rewrite (framesSinceLastSpawn_gameLoop w E).
    destruct (spawn_due (beforeGenerate w)) eqn:Edue; [lia|].
    assert (framesSinceLastSpawn w < 70)%Z; [|lia].
    apply Z.nle_gt. intros H70.
    rewrite <- framesSinceLastSpawn_beforeGenerate in H70.
    apply spawn_due_70 in H70; [congruence|].
    destruct (beforeGenerate_frames w) as (_ & _ & Er). rewrite Er. exact Hr.
  - rewrite (gameLoop_not_running w E). exact Hd.
Qed.



(** ** How many obstacles there are *)

Lemma obstacles_gameLoop (w : World) :
  isRunning (gameState w) = true ->
  obstacles (gameLoop w) =
  List.filter (fun o => negb (Obstacle.isOffScreen o))
              (map Obstacle.update (obstacles w))
  ++ (if spawn_due (beforeGenerate w) then [spawned (beforeGenerate w)]
      else []).
Proof.
  intros Hrun. rewrite (gameLoop_running w Hrun). cbv zeta.
  unfold requestAnimationFrame_gameLoop, set_animationFrames, set_gameState.
  cbn [obstacles].
  destruct (checkCollisions_frames (beforeCollisions w)) as (_ & _ & _ & Eo).
  rewrite Eo. unfold beforeCollisions, updateScore.
  cbn [obstacles set_dom set_gameState].
  rewrite generateObstacle_eq.
  assert (Ebg : obstacles (beforeGenerate w)
                = List.filter (fun o => negb (Obstacle.isOffScreen o))
                              (map Obstacle.update (obstacles w))).
  { unfold beforeGenerate. rewrite updateParticles_eq, updateObstacles_eq.
    reflexivity. }
  destruct (spawn_due (beforeGenerate w));
    cbn [obstacles set_obstacles set_rng set_lastObstacleFrame];
    rewrite Ebg; [reflexivity | rewrite app_nil_r; reflexivity].
Qed.

Lemma paced_update (young : Z) (l : list Obstacle.t) :
  paced young l ->
  paced (young + 1)
        (List.filter (fun o => negb (Obstacle.isOffScreen o))
                     (map Obstacle.update l)).
Proof.
  induction l as [|o l IH]; intros H; [exact I|].
  destruct H as [(a & Ha & Hle & Hyoung) Hl]. specialize (IH Hl).
  cbn [map List.filter].
  pose proof (aged_update a o Ha) as Ha'.
  destruct (Obstacle.isOffScreen (Obstacle.update o)) eqn:Eoff;
    cbn [negb]; [exact IH|].
  split; [|exact IH]. exists (S a). split; [exact Ha'|].
  assert (Hn : ~ (167 <= S a)%nat).
  { intros H167. apply (aged_isOffScreen (S a) _ Ha') in H167. congruence. }
  split; [lia|].
  pose proof (List.filter_length_le
                (fun o => negb (Obstacle.isOffScreen o))
                (map Obstacle.update l)) as Hlen.
  rewrite length_map in Hlen. lia.
Qed.

Lemma paced_spawn (young : Z) (l : list Obstacle.t) (w : World) :
  (41 <= young)%Z -> paced young l -> paced 0 (l ++ [spawned w]).
Proof.
  intros H41. induction l as [|o l IH]; intros H.
  - cbn. split; [|exact I]. exists 0%nat.
    split; [apply aged_spawned|]. split; lia.
  - destruct H as [(a & Ha & Hle & Hyoung) Hl].
    cbn [app paced]. split; [|exact (IH Hl)].
    exists a. split; [exact Ha|]. split; [exact Hle|].
    rewrite length_app. cbn [length]. lia.
Qed.

Lemma paced_length (young : Z) (l : list Obstacle.t) :
  (-1 <= young)%Z -> paced young l -> (length l <= 5)%nat.
Proof.
  intros Hy H. destruct l as [|o l]; [cbn; lia|].
  destruct H as [(a & _ & Hle & Hyoung) _]. cbn [length]. lia.
Qed.

Lemma paced_world_gameLoop (w : World) :
  Rng_in_range (rng w) -> paced_world w -> paced_world (gameLoop w).
Proof.
  intros Hr [Hd Hp]. destruct (isRunning (gameState w)) eqn:Erun.
  - unfold paced_world.
    rewrite (framesSinceLastSpawn_gameLoop w Erun),
      (obstacles_gameLoop w Erun).
    apply paced_update in Hp.
    replace (framesSinceLastSpawn w - 1 + 1)%Z
      with (framesSinceLastSpawn w) in Hp by lia.
    destruct (spawn_due (beforeGenerate w)) eqn:Edue.
    + split; [lia|]. apply (paced_spawn (framesSinceLastSpawn w)); [|exact Hp].
      apply (tick_spawn_41 w Hr Edue).
    + split; [lia|]. rewrite app_nil_r.
      replace (framesSinceLastSpawn w + 1 - 1)%Z
        with (framesSinceLastSpawn w) by lia.
      exact Hp.
  - rewrite (gameLoop_not_running w Erun). split; assumption.
Qed.

Lemma paced_world_dispatch (e : Event) (w : World) :
  Rng_in_range (rng w) -> paced_world w -> paced_world (dispatch e w).
Proof.
  intros Hr Hp.
  assert (Hreset : forall v : World, paced_world (resetWorld v)).
  { intros v. split; [unfold framesSinceLastSpawn; cbn; lia | exact I]. }
  assert (Hflip : paced_world (Player_flipGravity w)).
  { destruct (flipGravity_frames w) as (Eg & El & _).
    destruct (flipGravity_rest w) as (_ & _ & _ & Eo).
    unfold paced_world, framesSinceLastSpawn in *. rewrite Eg, El, Eo.
    exact Hp. }
  destruct e; cbn [dispatch].
  - apply (paced_world_gameLoop (resetWorld w)); [exact Hr | apply Hreset].
  - apply (paced_world_gameLoop
             (resetWorld (set_dom w (set_gameOverScreen_hidden (dom w) true))));
      [exact Hr | apply Hreset].
  - destruct (_ && _); [exact Hflip | exact Hp].
  - destruct (isRunning _); [exact Hflip | exact Hp].
  - destruct (animationFrames w) as [|n]; [exact Hp|].
    apply (paced_world_gameLoop (set_animationFrames w n)); assumption.
Qed.

Lemma Forall2_same_length {A : Type} (R : A -> A -> Prop) (l l' : list A) :
  Forall2 R l l' -> length l = length l'.
Proof. induction 1; cbn; congruence. Qed.

Lemma five_obstacles_in_play :
  length (obstacles (run play205
                       (initialWorld ∅ 0 startPage (mkRng (fun _ => 0) 0))))
  = 5%nat.
Proof.
  pose proof (run_Qred_eq play205 _ _
                (World_eq_refl
                   (initialWorld ∅ 0 startPage (mkRng (fun _ => 0) 0))))
    as Hplay.
  rewrite (Forall2_same_length _ _ _ (eq_obstacles _ _ Hplay)).
  vm_compute. reflexivity.
Qed.

(** X16.  For draws in [[0, 1)] there are never more than five obstacles:
    after any sequence of events since the page was loaded, the collection
    holds at most 5 of them, each one spawned at the right edge and moved
    at most 166 times since. *)
Theorem at_most_five_obstacles (storage : gmap string string) (best : Z)
    (page : Dom) (g : Rng) (es : list Event) :
  Rng_in_range g ->
  let w := run es (initialWorld storage best page g) in
  (length (obstacles w) <= 5)%nat /\
  Forall (fun o => exists a : nat, (a <= 166)%nat /\ aged a o) (obstacles w).
Proof.
  intros Hg. cbv zeta.
  assert (Hrun : forall w0 : World,
            Rng_in_range (rng w0) -> paced_world w0 ->
            paced_world (run es w0)).
  { induction es as [|e es IH]; intros w0 Hr H0; [exact H0|].
    cbn. apply IH; [|apply paced_world_dispatch; assumption].
    apply (Rng_in_range_stream (rng w0)); [apply stream_dispatch | exact Hr]. }
  destruct (Hrun (initialWorld storage best page g) Hg) as [Hd Hp].
  { split; [unfold framesSinceLastSpawn; cbn; lia | exact I]. }
  split; [eapply paced_length; [|exact Hp]; lia|].
  revert Hp. generalize (framesSinceLastSpawn
                           (run es (initialWorld storage best page g)) - 1)%Z.
  induction (obstacles (run es (initialWorld storage best page g)))
    as [|o l IH]; intros young Hp; constructor.
  - destruct Hp as [(a & Ha & Hle & _) _]. exists a. split; assumption.
  - apply (IH young). apply Hp.
Qed.

Lemma at_most_five_obstacles_witness :
  let g := mkRng (fun _ => 0) 0 in
  let w := run play205 (initialWorld ∅ 0 startPage g) in
  Rng_in_range g /\
  (length (obstacles w) <= 5)%nat /\ length (obstacles w) = 5%nat.
Proof.
  intros g w.
  assert (Hg : Rng_in_range g).
  { intros n. split; [discriminate | reflexivity]. }
  split; [exact Hg|]. split.
  - exact (proj1 (at_most_five_obstacles ∅ 0 startPage g play205 Hg)).
  - apply five_obstacles_in_play.
Defined.

(** ** Input *)

(** X17.  A flip touches the player, the particles, the hint and the
    generator only: it leaves the hint hidden and 15 more particles, and
    the state of the run (running flag, score, best score, frame), the
    obstacles, the frame of the last spawn, the storage and the queue of
    animation frames are as before. *)
Theorem flip_leaves_run_alone (w : World) :
  let w' := Player_flipGravity w in
  gameHint_hidden (dom w') = true /\
  length (particles w') = (length (particles w) + 15)%nat /\
  gameState w' = gameState w /\
  obstacles w' = obstacles w /\
  lastObstacleFrame w' = lastObstacleFrame w /\
  localStorage w' = localStorage w /\
  animationFrames w' = animationFrames w.
Proof.
  cbv zeta.
  destruct (flipGravity_frames w) as (Eg & El & _).
  destruct (flipGravity_rest w) as (Ea & Es & _ & Eo).
  split; [|split; [|repeat split; assumption]].
  - unfold Player_flipGravity, createParticles. cbv zeta.
    destruct (createParticles_loop _ _ _ _ _) as [l g].
    cbn [dom set_rng set_particles set_player].
    destruct (gameHint_hidden (dom w)) eqn:E; cbn; trivial.
  - unfold Player_flipGravity, createParticles. cbv zeta.
    rewrite createParticles_loop_burst.
    destruct (negb _); cbn [particles set_dom set_rng set_particles set_player];
      rewrite length_app, burst_length; reflexivity.
Qed.

(** ** The size of the canvas on the page *)

Lemma Math_min_spec (a b : Q) :
  Math_min a b <= a /\ Math_min a b <= b /\
  (Math_min a b == a \/ Math_min a b == b).
Proof.
  unfold Math_min. destruct (Qle_bool a b) eqn:E.
  - apply Qle_bool_iff in E. repeat split; lra.
  - apply Qle_bool_false_iff in E. repeat split; lra.
Qed.


(** ** What the page shows *)

Lemma dom_beforeCollisions (w : World) :
  dom (beforeCollisions w) =
  set_currentScoreEl (dom w)
    (Number_toString
       (Math.floor (score (gameState w) + CONFIG.game.scoreMultiplier))).
Proof.
  unfold beforeCollisions, updateScore. cbn [dom set_dom set_gameState].
  rewrite gameState_generateObstacle, gameState_beforeGenerate.
  rewrite generateObstacle_eq. unfold beforeGenerate.
  rewrite updateParticles_eq, updateObstacles_eq.
  destruct (spawn_due _); reflexivity.
Qed.

Lemma dom_gameOver (w : World) :
  let finalScore := Math.floor (score (gameState w)) in
  currentScoreEl (dom (gameOver w)) = currentScoreEl (dom w) /\
  finalScoreEl (dom (gameOver w)) = Number_toString finalScore /\
  gameOverScreen_hidden (dom (gameOver w)) = false /\
  newHighScoreEl_show (dom (gameOver w))
  = (highScore (gameState w) <? finalScore)%Z.
Proof.
  unfold gameOver. cbv zeta. world_simpl.
  destruct (_ <? _)%Z; repeat split.
Qed.

Lemma dom_next_frame (w : World) :
  dom (requestAnimationFrame_gameLoop
         (set_gameState w (set_frame (gameState w)
                                     (frame (gameState w) + 1)%Z)))
  = dom w.
Proof. reflexivity. Qed.

(** X19.  In a tick of a run whose score equals its frame counter, as it
    does all along, the page shows the new score, the frame counter plus
    1; and if the tick is the fatal one, the game-over screen is shown
    with that same number as the final score, the fatal tick included, and
    the new-best badge is shown exactly when this number beats the best
    score. *)
Theorem tick_shows_score (w : World) :
  isRunning (gameState w) = true ->
  score (gameState w) == inject_Z (frame (gameState w)) ->
  let w' := gameLoop w in
  let n := (frame (gameState w) + 1)%Z in
  currentScoreEl (dom w') = Number_toString n /\
  (crashes (beforeCollisions w) = true ->
   finalScoreEl (dom w') = Number_toString n /\
   gameOverScreen_hidden (dom w') = false /\
   newHighScoreEl_show (dom w') = (highScore (gameState w) <? n)%Z).
Proof.
  intros Hrun Hscore. cbv zeta.
  assert (Hfloor : Math.floor (score (gameState w)
                               + CONFIG.game.scoreMultiplier)
                   = (frame (gameState w) + 1)%Z).
  { unfold Math.floor, CONFIG.game.scoreMultiplier. rewrite Hscore.
    change 1 with (inject_Z 1). rewrite <- inject_Z_plus. apply Qfloor_Z. }
  rewrite (gameLoop_running w Hrun). cbv zeta. rewrite dom_next_frame.
  unfold checkCollisions. rewrite checkCollisions_loop_existsb.
  fold (crashes (beforeCollisions w)).
  destruct (dom_gameOver (beforeCollisions w)) as (Ec & Ef & Eh & Eb).
  cbv zeta in Ef, Eb.
  rewrite gameState_beforeCollisions in Ef, Eb.
  cbn [score highScore set_score] in Ef, Eb. rewrite Hfloor in Ef, Eb.
  assert (Ecur : currentScoreEl (dom (beforeCollisions w))
                 = Number_toString (frame (gameState w) + 1))
    by (rewrite dom_beforeCollisions, Hfloor; reflexivity).
  destruct (crashes (beforeCollisions w)).
  - split; [rewrite Ec; exact Ecur|]. intros _. repeat split; assumption.
  - split; [exact Ecur | discriminate].
Qed.

Lemma tick_shows_score_witness :
  (isRunning (gameState crashWorld) = true /\
   score (gameState crashWorld) == inject_Z (frame (gameState crashWorld)) /\
   crashes (beforeCollisions crashWorld) = true) /\
  currentScoreEl (dom (gameLoop crashWorld)) = "166" /\
  finalScoreEl (dom (gameLoop crashWorld)) = "166" /\
  newHighScoreEl_show (dom (gameLoop crashWorld)) = true.
Proof.
  assert (Hrun : isRunning (gameState crashWorld) = true) by reflexivity.
  assert (Hs : score (gameState crashWorld)
               == inject_Z (frame (gameState crashWorld))) by reflexivity.
  assert (Hc : crashes (beforeCollisions crashWorld) = true)
    by (vm_compute; reflexivity).
  split; [repeat split; assumption|].
  destruct (tick_shows_score crashWorld Hrun Hs) as [Ecur Hover].
  destruct (Hover Hc) as (Ef & _ & Eb).
  split; [exact Ecur|]. split; [exact Ef | exact Eb].
Defined.
